(** * cacao: the geocoding proxy cache and the image ingest pipeline

    A shallow embedding of the two utilities of package [handlers]:
    - the in-memory expiring cache in front of the geocoding service
      ([geoCache], [nominatimProxy]);
    - the decode / resize / re-encode / upload pipeline for photos
      ([processAndUploadImage]).
    Around them, further down: the two geocoding endpoints ([GeoSearch],
    [GeoReverse]) with the URL escaping they rely on, the Postgres
    integer arrays of the aroma IDs ([parsePgIntArray],
    [buildPgIntArray]), and the pure parts of the tasting handlers
    ([aromaMapFromSlice], [scanTasting], [buildNotes]).

    Package-level mutable variables are gathered in [World] and threaded
    through a small state-and-log monad.  Calls that leave the process
    (clock, network, image codecs) are inputs of the model; each such call
    the source performs is also recorded in the log, so that statements
    such as "the sweep ran three times" or "nothing was decoded" can be
    read off a run. *)

From Stdlib Require Import ZArith String List Bool Lia Ascii DecimalString.
From Stdlib Require Strings.Byte.
From stdpp Require Import gmap strings list fin_maps.

Local Open Scope string_scope.
Local Open Scope list_scope.
Local Open Scope Z_scope.

(** ** Go base types *)

(** [[]byte]: a slice is either [nil] or a (possibly empty) sequence. *)
Definition ByteSlice : Type := option (list Byte.byte).
Definition nil_slice : ByteSlice := None.

Definition len (b : ByteSlice) : Z :=
  match b with
  | None => 0
  | Some l => Z.of_nat (List.length l)
  end.

(** Go's [int] on the 64-bit targets: two's complement wrap-around. *)
Definition int_min : Z := - 2 ^ 63.
Definition int_max : Z := 2 ^ 63 - 1.
Definition wrap_int (z : Z) : Z := (z + 2 ^ 63) mod 2 ^ 64 - 2 ^ 63.

(** [time.Time] as an instant in nanoseconds on the process clock and
    [time.Duration] as a count of nanoseconds.  Every reading of
    [time.Now()] the source takes is an argument of the model. *)
Definition Time : Type := Z.
Definition Duration : Type := Z.

Definition Nanosecond : Duration := 1.
Definition Second : Duration := 1000000000 * Nanosecond.
Definition Hour : Duration := 3600 * Second.

Definition Time_Add (t : Time) (d : Duration) : Time := t + d.
(** [t.After(u)] reports whether [t] is strictly later than [u]. *)
Definition Time_After (t u : Time) : bool := u <? t.

(** ** Package state *)

Record geoCacheEntry : Type := mkEntry {
  body : ByteSlice;
  expiresAt : Time
}.

Record geoCache : Type := mkCache {
  entries : gmap string geoCacheEntry
}.

(** [geoCache_] and [geoCacheSetCount] are the two package variables the
    cache code writes to. *)
Record World : Type := mkWorld {
  geoCache_ : geoCache;
  geoCacheSetCount : Z
}.

Definition initWorld : World :=
  {| geoCache_ := {| entries := ∅ |}; geoCacheSetCount := 0 |}.

(** ** State-and-log monad *)

Definition M (E A : Type) : Type := World -> A * World * list E.

Definition ret {E A : Type} (a : A) : M E A := fun w => (a, w, []).

Definition bind {E A B : Type} (m : M E A) (f : A -> M E B) : M E B :=
  fun w =>
    let '(a, w1, l1) := m w in
    let '(b, w2, l2) := f a w1 in
    (b, w2, l1 ++ l2).

Definition emit {E : Type} (e : E) : M E unit := fun w => (tt, w, [e]).
Definition getWorld {E : Type} : M E World := fun w => (w, w, []).
Definition modify {E : Type} (f : World -> World) : M E unit :=
  fun w => (tt, f w, []).

Declare Scope go_scope.
Delimit Scope go_scope with go.
Notation "'do' x <- m ; k" := (bind m (fun x => k))
  (at level 10, x name, m at level 100, k at level 200) : go_scope.
Notation "m ;; k" := (bind m (fun _ => k))
  (at level 100, k at level 200, right associativity) : go_scope.
Local Open Scope go_scope.

Definition result {E A : Type} (r : A * World * list E) : A := r.1.1.
Definition world {E A : Type} (r : A * World * list E) : World := r.1.2.
Definition trace {E A : Type} (r : A * World * list E) : list E := r.2.

(** ** Errors *)

(** The [error] values the two utilities build or pass on. *)
Inductive error : Type :=
| errorString (msg : string)              (* fmt.Errorf without a verb *)
| wrapError (prefix : string) (err : error) (* fmt.Errorf with a %w verb *)
| httpError (Status Body : string)        (* the httpError struct *)
| libError (msg : string).                (* an error made by a library *)

(** The [Error] method of [httpError]; the other cases print as Go
    prints them. *)
Fixpoint error_Error (e : error) : string :=
  match e with
  | errorString msg => msg
  | wrapError prefix err => prefix +:+ error_Error err
  | httpError Status Body =>
      if String.eqb Body "" then Status else Status +:+ " - " +:+ Body
  | libError msg => msg
  end.

(** ** Strings *)

(** The one-byte white space characters: tab, line feed, vertical tab,
    form feed, carriage return, space. *)
Definition isSpace (c : ascii) : bool :=
  let n := N_of_ascii c in
  ((9 <=? n) && (n <=? 13) || (n =? 32))%N.

Definition inCutset (cutset : string) (c : ascii) : bool :=
  existsb (Ascii.eqb c) (list_ascii_of_string cutset).

Fixpoint dropWhile {A : Type} (p : A -> bool) (l : list A) : list A :=
  match l with
  | [] => []
  | x :: l' => if p x then dropWhile p l' else l
  end.

Definition dropWhileEnd {A : Type} (p : A -> bool) (l : list A) : list A :=
  rev (dropWhile p (rev l)).

(** [strings.TrimRight(s, cutset)] for a cutset of one-byte characters. *)
Definition strings_TrimRight (s cutset : string) : string :=
  string_of_list_ascii
    (dropWhileEnd (inCutset cutset) (list_ascii_of_string s)).

Definition byteIs (c : ascii) (n : N) : bool := (N_of_ascii c =? n)%N.

(** The white space runes that take two or three bytes in UTF-8, by
    their bytes: U+0085 and U+00A0; U+1680, U+2000 to U+200A, U+2028,
    U+2029, U+202F, U+205F and U+3000. *)
Definition isSpace2 (c1 c2 : ascii) : bool :=
  byteIs c1 194 && (byteIs c2 133 || byteIs c2 160).

Definition isSpace3 (c1 c2 c3 : ascii) : bool :=
  let n3 := N_of_ascii c3 in
  (byteIs c1 225 && byteIs c2 154 && byteIs c3 128)
  || (byteIs c1 226 && byteIs c2 128
      && ((128 <=? n3) && (n3 <=? 138) || byteIs c3 168 || byteIs c3 169
          || byteIs c3 175)%N)
  || (byteIs c1 226 && byteIs c2 129 && byteIs c3 159)
  || (byteIs c1 227 && byteIs c2 128 && byteIs c3 128).

(** Dropping white space runes from the front of a byte sequence; [two]
    and [three] recognise the runes of two and three bytes in the order
    the bytes come in the sequence. *)
Fixpoint dropSpaceRunes (two : ascii -> ascii -> bool)
    (three : ascii -> ascii -> ascii -> bool) (l : list ascii) : list ascii :=
  match l with
  | [] => []
  | c1 :: r1 =>
      if isSpace c1 then dropSpaceRunes two three r1
      else
        match r1 with
        | [] => l
        | c2 :: r2 =>
            if two c1 c2 then dropSpaceRunes two three r2
            else
              match r2 with
              | [] => l
              | c3 :: r3 =>
                  if three c1 c2 c3 then dropSpaceRunes two three r3 else l
              end
        end
  end.

(** [strings.TrimSpace] on any byte string: the white space runes of
    Unicode are dropped at both ends, and a byte sequence that is not
    the encoding of such a rune stops the trimming. *)
Definition strings_TrimSpace (s : string) : string :=
  let front := dropSpaceRunes isSpace2 isSpace3 (list_ascii_of_string s) in
  string_of_list_ascii
    (rev (dropSpaceRunes (fun c1 c2 => isSpace2 c2 c1)
            (fun c1 c2 c3 => isSpace3 c3 c2 c1) (rev front))).

(** The [%d] verb on an integer. *)
Definition itoa (z : Z) : string := NilZero.string_of_int (Z.to_int z).

Definition bytes_of (b : ByteSlice) : list Byte.byte :=
  match b with
  | None => []
  | Some l => l
  end.

(** The conversion [string(body)]. *)
Definition string_of_slice (b : ByteSlice) : string :=
  string_of_list_byte (bytes_of b).

(** ** net/http *)

Abbreviation Header := (gmap string string).
Definition Header_Set (k v : string) (h : Header) : Header := <[k := v]> h.
Definition Header_Del (k : string) (h : Header) : Header := delete k h.

Record Request : Type := mkRequest {
  req_Method : string;
  req_URL : string;
  req_Header : Header;
  req_Body : ByteSlice
}.

Definition Request_Header_Set (k v : string) (r : Request) : Request :=
  {| req_Method := req_Method r; req_URL := req_URL r;
     req_Header := Header_Set k v (req_Header r); req_Body := req_Body r |}.

(** A response as the client returns it; [resp_Body] is what
    [io.ReadAll(resp.Body)] yields: the bytes read and the read error. *)
Record Response : Type := mkResponse {
  resp_Status : string;
  resp_StatusCode : Z;
  resp_Body : ByteSlice * option error
}.

Definition io_ReadAll (r : ByteSlice * option error)
  : ByteSlice * option error := r.

Definition StatusOK : Z := 200.
Definition StatusInternalServerError : Z := 500.
Definition StatusBadGateway : Z := 502.
Definition MethodGet : string := "GET".
Definition MethodPost : string := "POST".

(** [http.ResponseWriter], as a recorder of what the handler sends:
    [rw_Code] is [None] until the status line has been written. *)
Record ResponseWriter : Type := mkWriter {
  rw_Header : Header;
  rw_Code : option Z;
  rw_Body : list Byte.byte
}.

Definition newResponseWriter : ResponseWriter :=
  {| rw_Header := ∅; rw_Code := None; rw_Body := [] |}.

Definition rw_Header_Set (k v : string) (w : ResponseWriter) : ResponseWriter :=
  {| rw_Header := Header_Set k v (rw_Header w);
     rw_Code := rw_Code w; rw_Body := rw_Body w |}.

Definition rw_Header_Del (k : string) (w : ResponseWriter) : ResponseWriter :=
  {| rw_Header := Header_Del k (rw_Header w);
     rw_Code := rw_Code w; rw_Body := rw_Body w |}.

(** Only the first [WriteHeader] counts.  The writer takes the codes
    from 100 to 999. *)
Definition rw_WriteHeader (code : Z) (w : ResponseWriter) : ResponseWriter :=
  match rw_Code w with
  | Some _ => w
  | None =>
      {| rw_Header := rw_Header w; rw_Code := Some code; rw_Body := rw_Body w |}
  end.

(** [Write] sends status 200 first when no status was written. *)
Definition rw_Write (b : list Byte.byte) (w : ResponseWriter) : ResponseWriter :=
  let w := rw_WriteHeader StatusOK w in
  {| rw_Header := rw_Header w; rw_Code := rw_Code w;
     rw_Body := rw_Body w ++ b |}.

Definition newline : string := String (ascii_of_nat 10) EmptyString.

(** [http.Error(w, msg, code)]. *)
Definition http_Error (w : ResponseWriter) (msg : string) (code : Z)
  : ResponseWriter :=
  let w := rw_Header_Del "Content-Length" w in
  let w := rw_Header_Set "Content-Type" "text/plain; charset=utf-8" w in
  let w := rw_Header_Set "X-Content-Type-Options" "nosniff" w in
  let w := rw_WriteHeader code w in
  rw_Write (list_byte_of_string (msg +:+ newline)) w.

(** ** The cache: [get], [set], [cleanupExpired] *)

(** What the geocoding side does outside the process state: a run of the
    sweep, and a request handed to [geoHTTPClient]. *)
Inductive GeoEvent : Type :=
| EvCleanup (now : Time)
| EvUpstream (req : Request).

Module geoCache.

Definition get (now : Time) (key : string) : M GeoEvent (ByteSlice * bool) :=
  do w <- getWorld;
  match entries (geoCache_ w) !! key with
  | None => ret (nil_slice, false)
  | Some e =>
      if Time_After now (expiresAt e)
      then ret (nil_slice, false)
      else ret (body e, true)
  end.

(** The [range] loop with [delete]: every entry of the map as it was
    when the loop started is visited once, and the expired ones are
    deleted from the map. *)
Definition sweep (now : Time) (m : gmap string geoCacheEntry)
  : gmap string geoCacheEntry :=
  map_fold
    (fun k e acc => if Time_After now (expiresAt e) then delete k acc else acc)
    m m.

Definition cleanupExpired (now : Time) : M GeoEvent unit :=
  emit (EvCleanup now) ;;
  modify (fun w =>
    {| geoCache_ := {| entries := sweep now (entries (geoCache_ w)) |};
       geoCacheSetCount := geoCacheSetCount w |}).

(** [now] is the clock reading taken for the expiry, [nowSweep] the one
    [cleanupExpired] takes when it runs. *)
Definition set (now nowSweep : Time) (key : string) (b : ByteSlice)
    (ttl : Duration) : M GeoEvent unit :=
  modify (fun w =>
    {| geoCache_ :=
         {| entries :=
              <[key := {| body := b; expiresAt := Time_Add now ttl |}]>
                (entries (geoCache_ w)) |};
       geoCacheSetCount := wrap_int (geoCacheSetCount w + 1) |}) ;;
  do w <- getWorld;
  let doCleanup := Z.rem (geoCacheSetCount w) 50 =? 0 in
  if doCleanup then cleanupExpired nowSweep else ret tt.

End geoCache.

(** The world right after the entry is installed and the counter bumped,
    before the sweep is considered. *)
Definition installed (now : Time) (key : string) (b : ByteSlice)
    (ttl : Duration) (w : World) : World :=
  {| geoCache_ :=
       {| entries :=
            <[key := {| body := b; expiresAt := Time_Add now ttl |}]>
              (entries (geoCache_ w)) |};
     geoCacheSetCount := wrap_int (geoCacheSetCount w + 1) |}.

(** A sequence of [set] calls, each with its own clock readings, key,
    body and time to live. *)
Record StoreCall : Type := mkStoreCall {
  sc_now : Time;
  sc_nowSweep : Time;
  sc_key : string;
  sc_body : ByteSlice;
  sc_ttl : Duration
}.

Definition store (c : StoreCall) : M GeoEvent unit :=
  geoCache.set (sc_now c) (sc_nowSweep c) (sc_key c) (sc_body c) (sc_ttl c).

Fixpoint stores (calls : list StoreCall) : M GeoEvent unit :=
  match calls with
  | [] => ret tt
  | c :: calls' => store c ;; stores calls'
  end.

Definition isCleanup (e : GeoEvent) : bool :=
  match e with
  | EvCleanup _ => true
  | EvUpstream _ => false
  end.

Definition isUpstream (e : GeoEvent) : bool := negb (isCleanup e).

(** How many times the sweep ran in a log. *)
Definition sweeps (l : list GeoEvent) : nat := List.length (List.filter isCleanup l).

(** ** The proxy *)

Section Proxy.
(** The process environment. *)
Variable os_Getenv : string -> string.
(** The error of parsing a URL, if any: the one way
    [http.NewRequestWithContext] fails for a valid method and a
    context that is not nil. *)
Variable url_Parse : string -> option error.
(** [geoHTTPClient.Do]. *)
Variable geoHTTPClient_Do : Request -> Response + error.

Definition http_NewRequestWithContext (method url : string) (b : ByteSlice)
  : Request + error :=
  match url_Parse url with
  | Some err => inr err
  | None =>
      inl {| req_Method := method; req_URL := url;
             req_Header := ∅; req_Body := b |}
  end.

Definition nominatimUserAgent : string :=
  let ua := strings_TrimSpace (os_Getenv "NOMINATIM_USER_AGENT") in
  if negb (String.eqb ua "") then ua
  else "Cacao-App/1.0 (+https://example.com; contact@example.com)".

(** The request the proxy hands to the client for a URL. *)
Definition upstreamRequest (nominatimURL : string) : Request :=
  Request_Header_Set "Accept-Language" "fr"
    (Request_Header_Set "Accept" "application/json"
       (Request_Header_Set "User-Agent" nominatimUserAgent
          {| req_Method := MethodGet; req_URL := nominatimURL;
             req_Header := ∅; req_Body := nil_slice |})).

(** [tGet], [tSet] and [tSweep] are the clock readings of the lookup,
    of the store and of the sweep the store may run. *)
Definition nominatimProxy (tGet tSet tSweep : Time) (nominatimURL : string)
    (w : ResponseWriter) : M GeoEvent ResponseWriter :=
  do hit <- geoCache.get tGet nominatimURL;
  if hit.2 then
    let w := rw_Header_Set "Content-Type" "application/json; charset=utf-8" w in
    ret (rw_Write (bytes_of hit.1) w)
  else
    match http_NewRequestWithContext MethodGet nominatimURL nil_slice with
    | inr _ =>
        ret (http_Error w "Erreur requête geo" StatusInternalServerError)
    | inl req =>
        let req := Request_Header_Set "User-Agent" nominatimUserAgent req in
        let req := Request_Header_Set "Accept" "application/json" req in
        let req := Request_Header_Set "Accept-Language" "fr" req in
        emit (EvUpstream req) ;;
        match geoHTTPClient_Do req with
        | inr _ =>
            ret (http_Error w "Service géolocalisation indisponible"
                   StatusBadGateway)
        | inl resp =>
            match io_ReadAll (resp_Body resp) with
            | (_, Some _) =>
                ret (http_Error w "Erreur lecture réponse geo"
                       StatusInternalServerError)
            | (b, None) =>
                (if (resp_StatusCode resp =? StatusOK) && (0 <? len b)
                 then geoCache.set tSet tSweep nominatimURL b (24 * Hour)
                 else ret tt) ;;
                let w :=
                  rw_Header_Set "Content-Type"
                    "application/json; charset=utf-8" w in
                let w := rw_WriteHeader (resp_StatusCode resp) w in
                ret (rw_Write (bytes_of b) w)
            end
        end
    end.
End Proxy.

(** ** The image pipeline *)

Definition MaxUploadSize : Z := Z.shiftl 10 20.
Definition MaxImageWidth : Z := 1200.
Definition JpegQuality : Z := 80.

Record Point : Type := mkPoint { X : Z; Y : Z }.
Record Rectangle : Type := mkRect { Min : Point; Max : Point }.

Definition Dx (r : Rectangle) : Z := wrap_int (X (Max r) - X (Min r)).
Definition Dy (r : Rectangle) : Z := wrap_int (Y (Max r) - Y (Min r)).

(** The part of [multipart.FileHeader] the pipeline reads. *)
Record FileHeader : Type := mkFileHeader {
  fh_Filename : string;
  fh_Size : Z
}.

(** The interpolation functions of the resize library. *)
Inductive InterpolationFunction : Type :=
| NearestNeighbor | Bilinear | Bicubic | MitchellNetravali | Lanczos2 | Lanczos3.

(** What the pipeline does outside the process state, in order. *)
Inductive IngestEvent (Image : Type) : Type :=
| EvDecode (data : list Byte.byte)
| EvResize (width height : Z) (img : Image) (interp : InterpolationFunction)
| EvEncode (img : Image) (quality : Z)
| EvUpload (req : Request).
Arguments EvDecode {Image} data.
Arguments EvResize {Image} width height img interp.
Arguments EvEncode {Image} img quality.
Arguments EvUpload {Image} req.

Definition errConfig : error :=
  errorString "SUPABASE_URL ou SUPABASE_SERVICE_ROLE_KEY manquant".
Definition errTooLarge : error :=
  errorString "fichier trop volumineux (max 10MB)".

Section Ingest.
(** Decoded images, with their bounds. *)
Variable Image : Type.
Variable Bounds : Image -> Rectangle.
(** The process environment. *)
Variable os_Getenv : string -> string.
(** [image.Decode] on the bytes of the uploaded file: the image and the
    name of its format, or an error. *)
Variable image_Decode : list Byte.byte -> (Image * string) + error.
(** [resize.Resize width height img interp]. *)
Variable resize_Resize : Z -> Z -> Image -> InterpolationFunction -> Image.
(** [jpeg.Encode] with the given quality: the bytes written, or an error. *)
Variable jpeg_Encode : Image -> Z -> list Byte.byte + error.
Variable url_Parse : string -> option error.
(** [uploadHTTPClient.Do]. *)
Variable uploadHTTPClient_Do : Request -> Response + error.

Local Abbreviation Ev := (IngestEvent Image).

(** [nowUnix] is [time.Now().Unix()], [file] the content of the uploaded
    file, [header] its multipart header or [None] for a nil pointer. *)
Definition processAndUploadImage (nowUnix : Z) (file : list Byte.byte)
    (header : option FileHeader) (tastingID : string)
  : M Ev (string * option error) :=
  let supabaseURL := strings_TrimRight (os_Getenv "SUPABASE_URL") "/" in
  let jwtKey := strings_TrimSpace (os_Getenv "SUPABASE_SERVICE_ROLE_KEY") in
  if String.eqb supabaseURL "" || String.eqb jwtKey "" then
    ret ("", Some errConfig)
  else if match header with
          | Some h => MaxUploadSize <? fh_Size h
          | None => false
          end then
    ret ("", Some errTooLarge)
  else
    emit (EvDecode file) ;;
    match image_Decode file with
    | inr err => ret ("", Some (wrapError "decode image: " err))
    | inl (img, format) =>
        let b := Bounds img in
        do img <- (if MaxImageWidth <? Dx b
                   then emit (EvResize MaxImageWidth 0 img Lanczos3) ;;
                        ret (resize_Resize MaxImageWidth 0 img Lanczos3)
                   else ret img);
        emit (EvEncode img JpegQuality) ;;
        match jpeg_Encode img JpegQuality with
        | inr err => ret ("", Some (wrapError "encode jpeg: " err))
        | inl buf =>
            let fileName :=
              "tasting-" +:+ tastingID +:+ "-" +:+ itoa nowUnix +:+ ".jpg" in
            let uploadURL :=
              supabaseURL +:+ "/storage/v1/object/photos/" +:+ fileName in
            match http_NewRequestWithContext url_Parse MethodPost uploadURL
                    (Some buf) with
            | inr err => ret ("", Some err)
            | inl req =>
                let req :=
                  Request_Header_Set "Authorization" ("Bearer " +:+ jwtKey) req in
                let req := Request_Header_Set "apikey" jwtKey req in
                let req := Request_Header_Set "Content-Type" "image/jpeg" req in
                let req := Request_Header_Set "x-upsert" "true" req in
                emit (EvUpload req) ;;
                match uploadHTTPClient_Do req with
                | inr err => ret ("", Some err)
                | inl resp =>
                    let body := (io_ReadAll (resp_Body resp)).1 in
                    if (resp_StatusCode resp <? 200)
                       || (300 <=? resp_StatusCode resp)
                    then ret ("", Some (httpError (resp_Status resp)
                                          (string_of_slice body)))
                    else
                      let publicURL :=
                        supabaseURL +:+ "/storage/v1/object/public/photos/"
                        +:+ fileName in
                      ret (publicURL, None)
                end
            end
        end
    end.
(** *** Names for the parts of a run, used to state its properties *)

Definition supabaseURL : string :=
  strings_TrimRight (os_Getenv "SUPABASE_URL") "/".
Definition jwtKey : string :=
  strings_TrimSpace (os_Getenv "SUPABASE_SERVICE_ROLE_KEY").

(** Both storage settings are present. *)
Definition configured : bool :=
  negb (String.eqb supabaseURL "" || String.eqb jwtKey "").

(** The header is there and declares more than [MaxUploadSize] bytes. *)
Definition oversize (header : option FileHeader) : bool :=
  match header with
  | Some h => MaxUploadSize <? fh_Size h
  | None => false
  end.

Definition fileName (nowUnix : Z) (tastingID : string) : string :=
  "tasting-" +:+ tastingID +:+ "-" +:+ itoa nowUnix +:+ ".jpg".

Definition uploadURL (nowUnix : Z) (tastingID : string) : string :=
  supabaseURL +:+ "/storage/v1/object/photos/" +:+ fileName nowUnix tastingID.

Definition publicURL (nowUnix : Z) (tastingID : string) : string :=
  supabaseURL +:+ "/storage/v1/object/public/photos/"
  +:+ fileName nowUnix tastingID.

Definition uploadRequest (nowUnix : Z) (tastingID : string)
    (buf : list Byte.byte) : Request :=
  Request_Header_Set "x-upsert" "true"
    (Request_Header_Set "Content-Type" "image/jpeg"
       (Request_Header_Set "apikey" jwtKey
          (Request_Header_Set "Authorization" ("Bearer " +:+ jwtKey)
             {| req_Method := MethodPost;
                req_URL := uploadURL nowUnix tastingID;
                req_Header := ∅; req_Body := Some buf |}))).

(** The image handed to the encoder. *)
Definition encoded (img : Image) : Image :=
  if MaxImageWidth <? Dx (Bounds img)
  then resize_Resize MaxImageWidth 0 img Lanczos3
  else img.

Definition isResize (e : Ev) : bool :=
  match e with
  | EvResize _ _ _ _ => true
  | _ => false
  end.

Definition isUpload (e : Ev) : bool :=
  match e with
  | EvUpload _ => true
  | _ => false
  end.

(** The log up to and including the call of the encoder. *)
Definition upToEncode (file : list Byte.byte) (img : Image) : list Ev :=
  EvDecode file
  :: (if MaxImageWidth <? Dx (Bounds img)
      then [EvResize MaxImageWidth 0 img Lanczos3] else [])
  ++ [EvEncode (encoded img) JpegQuality].

(** The answer of the pipeline to the answer of the storage endpoint. *)
Definition afterUpload (nowUnix : Z) (tastingID : string) (resp : Response)
  : string * option error :=
  if (resp_StatusCode resp <? 200) || (300 <=? resp_StatusCode resp)
  then ("", Some (httpError (resp_Status resp)
                    (string_of_slice (resp_Body resp).1)))
  else (publicURL nowUnix tastingID, None).

(** What the resize library promises when asked for a smaller width and
    height 0: the width asked for, and the height that keeps the aspect
    ratio, to less than one pixel. *)
Definition keepsAspectRatio : Prop :=
  forall (width : Z) (img : Image) (interp : InterpolationFunction),
    0 < width -> width < Dx (Bounds img) -> 0 < Dy (Bounds img) ->
    let out := Bounds (resize_Resize width 0 img interp) in
    Dx out = width /\
    Z.abs (Dy out * Dx (Bounds img) - Dy (Bounds img) * width)
      < Dx (Bounds img).

(** What the codecs promise: bytes written by [jpeg.Encode] decode, and
    are recognised as JPEG. *)
Definition encodesJPEG : Prop :=
  forall (img : Image) (quality : Z) (buf : list Byte.byte),
    jpeg_Encode img quality = inl buf ->
    exists img', image_Decode buf = inl (img', "jpeg").
End Ingest.

(** * Form and database helpers *)

(** ** More of package [strings] and [strconv] *)

(** [strings.Trim(s, cutset)] for a cutset of one-byte characters. *)
Definition strings_Trim (s cutset : string) : string :=
  string_of_list_ascii
    (dropWhileEnd (inCutset cutset)
       (dropWhile (inCutset cutset) (list_ascii_of_string s))).

(** [strings.Split(s, sep)] for a separator of one byte [c]: the empty
    string splits into one empty piece. *)
Fixpoint splitOn (c : ascii) (l : list ascii) : list (list ascii) :=
  match l with
  | [] => [[]]
  | x :: r =>
      if Ascii.eqb x c then [] :: splitOn c r
      else
        match splitOn c r with
        | [] => [[x]]
        | piece :: pieces => (x :: piece) :: pieces
        end
  end.

Definition strings_Split (s : string) (sep : ascii) : list string :=
  List.map string_of_list_ascii (splitOn sep (list_ascii_of_string s)).

(** [strings.Join(elems, sep)]. *)
Fixpoint strings_Join (elems : list string) (sep : string) : string :=
  match elems with
  | [] => ""
  | [e] => e
  | e :: rest => e +:+ sep +:+ strings_Join rest sep
  end.

Definition isDigit (c : ascii) : bool :=
  let n := N_of_ascii c in ((48 <=? n) && (n <=? 57))%N.

Definition digitVal (c : ascii) : Z := Z.of_N (N_of_ascii c) - 48.

Definition digitsVal (l : list ascii) : Z :=
  fold_left (fun acc c => acc * 10 + digitVal c) l 0.

(** [strconv.Atoi]: an optional sign, then one decimal digit or more,
    the value within the range of [int]; [None] stands for an error
    (the value returned with an error is never used here). *)
Definition strconv_Atoi (s : string) : option Z :=
  let l := list_ascii_of_string s in
  let '(neg, digits) :=
    match l with
    | c :: r =>
        if byteIs c 45 then (true, r)
        else if byteIs c 43 then (false, r)
        else (false, l)
    | [] => (false, l)
    end in
  match digits with
  | [] => None
  | _ :: _ =>
      if forallb isDigit digits then
        let n := if neg then - digitsVal digits else digitsVal digits in
        if (int_min <=? n) && (n <=? int_max) then Some n else None
      else None
  end.

(** ** Postgres integer arrays *)

(** [[]int]: [None] is the nil slice. *)
Definition IntSlice : Type := option (list Z).

Definition parsePgIntArray (raw : string) : IntSlice :=
  let raw := strings_TrimSpace raw in
  let raw := strings_Trim raw "{}" in
  if String.eqb raw "" then None
  else
    let parts := strings_Split raw "," in
    Some
      (fold_left
         (fun out p =>
            match strconv_Atoi (strings_TrimSpace p) with
            | Some n => if 0 <? n then out ++ [n] else out
            | None => out
            end)
         parts []).

Definition buildPgIntArray (ids : list string) : string :=
  if (Z.of_nat (List.length ids) =? 0) then "{}"
  else
    let clean :=
      fold_left
        (fun clean s =>
           let s := strings_TrimSpace s in
           if String.eqb s "" then clean
           else
             match strconv_Atoi s with
             | Some _ => clean ++ [s]
             | None => clean
             end)
        ids [] in
    if (Z.of_nat (List.length clean) =? 0) then "{}"
    else "{" +:+ strings_Join clean "," +:+ "}".

(** The IDs a form submits that are kept: trimmed, and accepted by
    [strconv.Atoi]. *)
Definition cleanID (s : string) : option string :=
  let t := strings_TrimSpace s in
  match strconv_Atoi t with
  | Some _ => Some t
  | None => None
  end.

(** The value of an array element that is kept: an integer above 0. *)
Definition positiveID (p : string) : option Z :=
  match strconv_Atoi (strings_TrimSpace p) with
  | Some n => if 0 <? n then Some n else None
  | None => None
  end.

(** The characters of a decimal integer with its sign. *)
Definition isNumChar (c : ascii) : bool :=
  isDigit c || byteIs c 45 || byteIs c 43.

(** The characters between the braces of an array of integers. *)
Definition isTokChar (c : ascii) : bool := isNumChar c || Ascii.eqb c ",".

(** * The geocoding endpoints *)

(** ** Package [net/url] *)

Definition isAlnum (c : ascii) : bool :=
  let n := N_of_ascii c in
  ((97 <=? n) && (n <=? 122) || (65 <=? n) && (n <=? 90)
   || (48 <=? n) && (n <=? 57))%N.

(** [shouldEscape(c, encodeQueryComponent)]: everything but letters,
    digits and the marks - _ . ~ is escaped. *)
Definition shouldEscape (c : ascii) : bool :=
  negb (isAlnum c || inCutset "-_.~" c).

Definition upperhex (n : N) : ascii :=
  nth (N.to_nat n) (list_ascii_of_string "0123456789ABCDEF") "0"%char.

Definition escapeByte (c : ascii) : list ascii :=
  if Ascii.eqb c " " then ["+"%char]
  else if shouldEscape c then
    ["%"%char; upperhex (N_of_ascii c / 16); upperhex (N_of_ascii c mod 16)]
  else [c].

(** [url.QueryEscape]. *)
Definition url_QueryEscape (s : string) : string :=
  string_of_list_ascii (flat_map escapeByte (list_ascii_of_string s)).

(** [url.Values]: the values of each key. *)
Abbreviation Values := (gmap string (list string)).

Definition Values_Set (k v : string) (vs : Values) : Values := <[k := [v]]> vs.

Fixpoint insertSorted (k : string) (l : list string) : list string :=
  match l with
  | [] => [k]
  | x :: r => if String.leb k x then k :: l else x :: insertSorted k r
  end.

(** [slices.Sort] on strings: increasing byte order. *)
Definition sortStrings (l : list string) : list string :=
  fold_right insertSorted [] l.

(** [url.Values.Encode]: "key=value" pairs joined by "&", the keys in
    increasing order, keys and values escaped. *)
Definition Values_Encode (vs : Values) : string :=
  let keys := sortStrings (List.map fst (map_to_list vs)) in
  fold_left
    (fun buf k =>
       let keyEscaped := url_QueryEscape k in
       fold_left
         (fun buf v =>
            let buf := if negb (String.eqb buf "") then buf +:+ "&" else buf in
            buf +:+ keyEscaped +:+ "=" +:+ url_QueryEscape v)
         (default [] (vs !! k)) buf)
    keys "".

(** ** The handlers *)

Definition StatusBadRequest : Z := 400.

Definition writeEmptyArray (w : ResponseWriter) : ResponseWriter :=
  let w := rw_Header_Set "Content-Type" "application/json; charset=utf-8" w in
  rw_Write (list_byte_of_string "[]") w.

Section GeoHandlers.
Variable os_Getenv : string -> string.
Variable url_Parse : string -> option error.
Variable geoHTTPClient_Do : Request -> Response + error.

Definition nominatimEmailParam : string :=
  strings_TrimSpace (os_Getenv "NOMINATIM_EMAIL").

(** [query] is [r.URL.Query().Get]: the first value of a parameter of
    the request, or the empty string. *)
Definition GeoSearch (tGet tSet tSweep : Time) (query : string -> string)
    (w : ResponseWriter) : M GeoEvent ResponseWriter :=
  let q := strings_TrimSpace (query "q") in
  if Z.of_nat (String.length q) <? 2 then ret (writeEmptyArray w)
  else
    let base := "https://nominatim.openstreetmap.org/search" in
    let v : Values := ∅ in
    let v := Values_Set "format" "json" v in
    let v := Values_Set "q" q v in
    let v := Values_Set "limit" "6" v in
    let v := Values_Set "addressdetails" "1" v in
    let v := Values_Set "accept-language" "fr" v in
    let v :=
      let em := nominatimEmailParam in
      if negb (String.eqb em "") then Values_Set "email" em v else v in
    nominatimProxy os_Getenv url_Parse geoHTTPClient_Do tGet tSet tSweep
      (base +:+ "?" +:+ Values_Encode v) w.

Definition GeoReverse (tGet tSet tSweep : Time) (query : string -> string)
    (w : ResponseWriter) : M GeoEvent ResponseWriter :=
  let lat := strings_TrimSpace (query "lat") in
  let lon := strings_TrimSpace (query "lon") in
  if String.eqb lat "" || String.eqb lon "" then
    ret (http_Error w "lat et lon requis" StatusBadRequest)
  else if (20 <? Z.of_nat (String.length lat))
          || (20 <? Z.of_nat (String.length lon)) then
    ret (http_Error w "lat/lon invalides" StatusBadRequest)
  else
    let base := "https://nominatim.openstreetmap.org/reverse" in
    let v : Values := ∅ in
    let v := Values_Set "format" "json" v in
    let v := Values_Set "lat" lat v in
    let v := Values_Set "lon" lon v in
    let v := Values_Set "addressdetails" "1" v in
    let v := Values_Set "accept-language" "fr" v in
    let v :=
      let em := nominatimEmailParam in
      if negb (String.eqb em "") then Values_Set "email" em v else v in
    nominatimProxy os_Getenv url_Parse geoHTTPClient_Do tGet tSet tSweep
      (base +:+ "?" +:+ Values_Encode v) w.
End GeoHandlers.

(** The characters [url.QueryEscape] can produce. *)
Definition isEscaped (c : ascii) : bool :=
  isAlnum c || inCutset "-_.~+%" c.

Definition hexVal (c : ascii) : N :=
  let n := N_of_ascii c in
  if (n <=? 57)%N then n - 48 else n - 55.

(** Reading an escaped query back, for what [url.QueryEscape] wrote. *)
Fixpoint unescape (l : list ascii) : list ascii :=
  match l with
  | [] => []
  | c :: r =>
      if Ascii.eqb c "+" then " "%char :: unescape r
      else if Ascii.eqb c "%" then
        match r with
        | h :: lo :: r' => ascii_of_N (16 * hexVal h + hexVal lo) :: unescape r'
        | _ => c :: unescape r
        end
      else c :: unescape r
  end.

(** The URL [GeoSearch] asks the proxy for, for a trimmed query [q] and
    the e-mail setting [em]. *)
Definition searchURL (em q : string) : string :=
  "https://nominatim.openstreetmap.org/search?accept-language=fr&addressdetails=1&"
  +:+ (if String.eqb em "" then "" else "email=" +:+ url_QueryEscape em +:+ "&")
  +:+ "format=json&limit=6&q=" +:+ url_QueryEscape q.

(** The URL [GeoReverse] asks the proxy for. *)
Definition reverseURL (em lat lon : string) : string :=
  "https://nominatim.openstreetmap.org/reverse?accept-language=fr&addressdetails=1&"
  +:+ (if String.eqb em "" then "" else "email=" +:+ url_QueryEscape em +:+ "&")
  +:+ "format=json&lat=" +:+ url_QueryEscape lat
  +:+ "&lon=" +:+ url_QueryEscape lon.

(** * Tastings *)

Record Aroma : Type := mkAroma {
  aroma_ID : Z;
  aroma_Name : string;
  aroma_Family : string;
  aroma_PhotoURL : string
}.

Definition aromaMapFromSlice (aromas : list Aroma) : gmap Z string :=
  fold_left (fun m a => <[aroma_ID a := aroma_Name a]> m) aromas ∅.

(** [[]string]: [None] is the nil slice; [append] makes it a sequence. *)
Definition StringSlice : Type := option (list string).

Definition append_string (s : StringSlice) (x : string) : StringSlice :=
  match s with
  | None => Some [x]
  | Some l => Some (l ++ [x])
  end.

Definition strings_of (s : StringSlice) : list string :=
  match s with
  | None => []
  | Some l => l
  end.

Definition ints_of (s : IntSlice) : list Z :=
  match s with
  | None => []
  | Some l => l
  end.

Section Tastings.
(** [float64] values are only carried around here. *)
Variable float64 : Type.

Record NullFloat64 : Type := mkNullFloat64 {
  nf_Float64 : float64;
  nf_Valid : bool
}.

Record Tasting : Type := mkTasting {
  t_ID : string;
  t_ProductName : string;
  t_Maker : string;
  t_City : string;
  t_Score : float64;
  t_Mode : string;
  t_Notes : string;
  t_PhotoURL : string;
  t_CreatedAt : Time;
  t_AromaIDs : IntSlice;
  t_AromaNames : StringSlice;
  t_Latitude : option float64;
  t_Longitude : option float64;
  t_VueQuality : string;
  t_SnapQuality : string;
  t_MeltQuality : string;
  t_FinishLength : string
}.

(** What [row.Scan] leaves in its sixteen destinations, and its error. *)
Record Scanned : Type := mkScanned {
  col_ID : string;
  col_ProductName : string;
  col_Maker : string;
  col_City : string;
  col_Score : float64;
  col_Mode : string;
  col_Notes : string;
  col_PhotoURL : string;
  col_lat : NullFloat64;
  col_lng : NullFloat64;
  col_CreatedAt : Time;
  col_aromaIDsRaw : string;
  col_VueQuality : string;
  col_SnapQuality : string;
  col_MeltQuality : string;
  col_FinishLength : string;
  col_err : option error
}.

Definition set_Latitude (v : option float64) (t : Tasting) : Tasting :=
  mkTasting (t_ID t) (t_ProductName t) (t_Maker t) (t_City t) (t_Score t)
    (t_Mode t) (t_Notes t) (t_PhotoURL t) (t_CreatedAt t) (t_AromaIDs t)
    (t_AromaNames t) v (t_Longitude t) (t_VueQuality t) (t_SnapQuality t)
    (t_MeltQuality t) (t_FinishLength t).

Definition set_Longitude (v : option float64) (t : Tasting) : Tasting :=
  mkTasting (t_ID t) (t_ProductName t) (t_Maker t) (t_City t) (t_Score t)
    (t_Mode t) (t_Notes t) (t_PhotoURL t) (t_CreatedAt t) (t_AromaIDs t)
    (t_AromaNames t) (t_Latitude t) v (t_VueQuality t) (t_SnapQuality t)
    (t_MeltQuality t) (t_FinishLength t).

Definition set_AromaIDs (v : IntSlice) (t : Tasting) : Tasting :=
  mkTasting (t_ID t) (t_ProductName t) (t_Maker t) (t_City t) (t_Score t)
    (t_Mode t) (t_Notes t) (t_PhotoURL t) (t_CreatedAt t) v
    (t_AromaNames t) (t_Latitude t) (t_Longitude t) (t_VueQuality t)
    (t_SnapQuality t) (t_MeltQuality t) (t_FinishLength t).

Definition set_AromaNames (v : StringSlice) (t : Tasting) : Tasting :=
  mkTasting (t_ID t) (t_ProductName t) (t_Maker t) (t_City t) (t_Score t)
    (t_Mode t) (t_Notes t) (t_PhotoURL t) (t_CreatedAt t) (t_AromaIDs t)
    v (t_Latitude t) (t_Longitude t) (t_VueQuality t)
    (t_SnapQuality t) (t_MeltQuality t) (t_FinishLength t).

(** [row] is the outcome of [row.Scan] on the sixteen destinations. *)
Definition scanTasting (row : Scanned) (aromaMap : gmap Z string)
  : Tasting * option error :=
  let t :=
    mkTasting (col_ID row) (col_ProductName row) (col_Maker row) (col_City row)
      (col_Score row) (col_Mode row) (col_Notes row) (col_PhotoURL row)
      (col_CreatedAt row) None None None None (col_VueQuality row)
      (col_SnapQuality row) (col_MeltQuality row) (col_FinishLength row) in
  match col_err row with
  | Some err => (t, Some err)
  | None =>
      let t :=
        if nf_Valid (col_lat row)
        then set_Latitude (Some (nf_Float64 (col_lat row))) t else t in
      let t :=
        if nf_Valid (col_lng row)
        then set_Longitude (Some (nf_Float64 (col_lng row))) t else t in
      let t := set_AromaIDs (parsePgIntArray (col_aromaIDsRaw row)) t in
      let t :=
        fold_left
          (fun t id =>
             match aromaMap !! id with
             | Some name => set_AromaNames (append_string (t_AromaNames t) name) t
             | None => t
             end)
          (ints_of (t_AromaIDs t)) t in
      (t, None)
  end.
End Tastings.

(** ** Notes of the add and update forms *)

Definition lineFeed : string := String (ascii_of_nat 10) EmptyString.

(** [form] is [r.FormValue]. *)
Definition buildNotes (form : string -> string) : string :=
  let mode := strings_TrimSpace (form "mode") in
  if negb (String.eqb mode "deep") then strings_TrimSpace (form "notes")
  else
    let parts : list string := [] in
    let parts :=
      let v := strings_TrimSpace (form "vue_quality") in
      if negb (String.eqb v "") then parts ++ ["Vue : " +:+ v] else parts in
    let parts :=
      let v := strings_TrimSpace (form "snap_quality") in
      if negb (String.eqb v "") then parts ++ ["Cassant : " +:+ v] else parts in
    let parts :=
      let v := strings_TrimSpace (form "notes_cassant") in
      if negb (String.eqb v "") then parts ++ [v] else parts in
    let parts :=
      let v := strings_TrimSpace (form "melt_quality") in
      if negb (String.eqb v "") then parts ++ ["Texture : " +:+ v] else parts in
    let parts :=
      let v := strings_TrimSpace (form "finish_length") in
      if negb (String.eqb v "") then parts ++ ["Finale : " +:+ v] else parts in
    let parts :=
      let v := strings_TrimSpace (form "notes_finale") in
      if negb (String.eqb v "") then parts ++ [v] else parts in
    let parts :=
      let v := strings_TrimSpace (form "notes") in
      if negb (String.eqb v "") then parts ++ [v] else parts in
    strings_Join parts lineFeed.

(** * Sample inputs *)

(** Three stores with different keys, bodies and times to live, repeated
    fifty times. *)
Definition sampleCalls : list StoreCall :=
  List.concat (List.repeat
    [ {| sc_now := 10; sc_nowSweep := 11; sc_key := "https://x/search?q=a";
         sc_body := Some [Byte.x7b; Byte.x7d]; sc_ttl := 24 * Hour |};
      {| sc_now := 20; sc_nowSweep := 21; sc_key := "https://x/search?q=b";
         sc_body := Some [Byte.x5b; Byte.x5d]; sc_ttl := 5 |};
      {| sc_now := 30; sc_nowSweep := 31; sc_key := "https://x/reverse?lat=1";
         sc_body := nil_slice; sc_ttl := 0 |} ] 50).

(** The process environment with the storage settings, and without. *)
Definition sampleGetenv (k : string) : string :=
  if String.eqb k "SUPABASE_URL" then "https://proj.example.co/"
  else if String.eqb k "SUPABASE_SERVICE_ROLE_KEY" then " service-key "
  else "".

Definition noGetenv (k : string) : string := "".

(** The no-break space U+00A0, as its two bytes. *)
Definition nbsp : string :=
  String (ascii_of_nat 194) (String (ascii_of_nat 160) EmptyString).

(** The process environment with the storage URL, and with a key and a
    user agent that are set but blank. *)
Definition blankGetenv (k : string) : string :=
  if String.eqb k "SUPABASE_URL" then "https://proj.example.co/"
  else if String.eqb k "SUPABASE_SERVICE_ROLE_KEY" then nbsp
  else if String.eqb k "NOMINATIM_USER_AGENT" then nbsp +:+ " "
  else "".

(** URLs with a control character do not parse. *)
Definition hasControl (s : string) : bool :=
  existsb (fun c => (N_of_ascii c <? 32)%N || (N_of_ascii c =? 127)%N)
    (list_ascii_of_string s).

Definition sampleParse (u : string) : option error :=
  if hasControl u
  then Some (libError "net/url: invalid control character in URL")
  else None.

(** An upstream that knows one query, is unreachable for one host, and
    answers 404 otherwise. *)
Definition sampleGeoDo (r : Request) : Response + error :=
  if String.eqb (req_URL r) "https://x/search?q=a" then
    inl {| resp_Status := "200 OK"; resp_StatusCode := 200;
           resp_Body := (Some [Byte.x7b; Byte.x7d], None) |}
  else if String.eqb (req_URL r) "https://down/search?q=a" then
    inr (libError "dial tcp: connection refused")
  else
    inl {| resp_Status := "404 Not Found"; resp_StatusCode := 404;
           resp_Body := (Some [Byte.x5b; Byte.x5d], None) |}.



Definition stalled : Response :=
  {| resp_Status := "200 OK"; resp_StatusCode := 200;
     resp_Body :=
       (nil_slice,
        Some (libError
          "context deadline exceeded (Client.Timeout or context cancellation while reading body)")) |}.

Definition stalledDo (r : Request) : Response + error := inl stalled.

(** A storage endpoint that rejects every upload. *)
Definition forbidden : Response :=
  {| resp_Status := "403 Forbidden"; resp_StatusCode := 403;
     resp_Body := (Some [Byte.x6e; Byte.x6f], None) |}.

Definition rejectingDo (r : Request) : Response + error := inl forbidden.

Definition acceptingDo (r : Request) : Response + error :=
  inl {| resp_Status := "200 OK"; resp_StatusCode := 200;
         resp_Body := (Some [], None) |}.

(** Images reduced to their size, with a five byte file format: a tag
    (0xff for JPEG, 0x89 for PNG), then width and height on two bytes
    each. *)
Record Pixmap : Type := mkPixmap { pm_w : Z; pm_h : Z }.

Definition clamp (z : Z) : Z := Z.max 0 (Z.min z 65535).

Definition pmBounds (p : Pixmap) : Rectangle :=
  {| Min := {| X := 0; Y := 0 |};
     Max := {| X := clamp (pm_w p); Y := clamp (pm_h p) |} |}.

Definition byteZ (b : Byte.byte) : Z := Z.of_N (Byte.to_N b).
Definition Zbyte (z : Z) : Byte.byte :=
  match Byte.of_N (Z.to_N (z mod 256)) with
  | Some b => b
  | None => Byte.x00
  end.

Definition pmDecode (data : list Byte.byte) : (Pixmap * string) + error :=
  match data with
  | tag :: wh :: wl :: hh :: hl :: _ =>
      let p := {| pm_w := 256 * byteZ wh + byteZ wl;
                  pm_h := 256 * byteZ hh + byteZ hl |} in
      if Byte.eqb tag Byte.xff then inl (p, "jpeg")
      else if Byte.eqb tag Byte.x89 then inl (p, "png")
      else inr (libError "image: unknown format")
  | _ => inr (libError "image: unknown format")
  end.

Definition pmEncode (p : Pixmap) (quality : Z) : list Byte.byte + error :=
  let w := clamp (pm_w p) in
  let h := clamp (pm_h p) in
  inl [Byte.xff; Zbyte (w / 256); Zbyte w; Zbyte (h / 256); Zbyte h].

(** Height 0 asks for the height that keeps the ratio: the quotient plus
    0.7, rounded down. *)
Definition pmResize (width height : Z) (p : Pixmap)
    (interp : InterpolationFunction) : Pixmap :=
  let W := Dx (pmBounds p) in
  let H := Dy (pmBounds p) in
  {| pm_w := width;
     pm_h := if height =? 0 then (7 * W + 10 * H * width) / (10 * W)
             else height |}.

(** A PNG of 2400 by 1000, a JPEG of 640 by 480. *)
Definition widePNG : list Byte.byte :=
  [Byte.x89; Byte.x09; Byte.x60; Byte.x03; Byte.xe8].
Definition smallJPEG : list Byte.byte :=
  [Byte.xff; Byte.x02; Byte.x80; Byte.x01; Byte.xe0].

Definition bigHeader : FileHeader :=
  {| fh_Filename := "photo.png"; fh_Size := 10485761 |}.
Definition okHeader : FileHeader :=
  {| fh_Filename := "photo.png"; fh_Size := 5 |}.
(** * Properties of the cache *)

Lemma wrap_int_small (z : Z) : int_min <= z <= int_max -> wrap_int z = z.
Proof.
  unfold int_min, int_max, wrap_int. intros Hz.
  rewrite Z.mod_small; lia.
Qed.

Lemma get_unfold (now : Time) (key : string) (w : World) :
  geoCache.get now key w =
  (match entries (geoCache_ w) !! key with
   | None => (nil_slice, false)
   | Some e =>
       if Time_After now (expiresAt e) then (nil_slice, false)
       else (body e, true)
   end, w, []).
Proof.
  unfold geoCache.get, bind, getWorld, ret.
  destruct (entries (geoCache_ w) !! key) as [e|]; [|reflexivity].
  destruct (Time_After now (expiresAt e)); reflexivity.
Qed.

(** The loop of the sweep, entry by entry. *)
Lemma sweep_lookup (now : Time) (m : gmap string geoCacheEntry) (k : string) :
  geoCache.sweep now m !! k =
  match m !! k with
  | Some e => if Time_After now (expiresAt e) then None else Some e
  | None => None
  end.
Proof.
  unfold geoCache.sweep.
  set (f := fun (k : string) (e : geoCacheEntry) (acc : gmap string geoCacheEntry) =>
              if Time_After now (expiresAt e) then delete k acc else acc).
  assert (Hgen : forall m0 : gmap string geoCacheEntry,
             map_fold f m0 m !! k =
             match m !! k with
             | Some e => if Time_After now (expiresAt e) then None else m0 !! k
             | None => m0 !! k
             end).
  { intros m0.
    induction m as [|i x m Hi Hfold IH] using map_first_key_ind.
    - rewrite map_fold_empty, lookup_empty. reflexivity.
    - rewrite map_fold_insert_first_key by assumption.
      unfold f at 1.
      destruct (decide (i = k)) as [->|Hne].
      + rewrite lookup_insert_eq.
        destruct (Time_After now (expiresAt x)).
        * apply lookup_delete_eq.
        * rewrite IH, Hi. reflexivity.
      + rewrite lookup_insert_ne by assumption.
        destruct (Time_After now (expiresAt x)).
        * rewrite lookup_delete_ne by assumption. apply IH.
        * apply IH. }
  rewrite Hgen. destruct (m !! k) as [e|]; reflexivity.
Qed.

Lemma cleanupExpired_unfold (now : Time) (w : World) :
  geoCache.cleanupExpired now w =
  (tt,
   {| geoCache_ := {| entries := geoCache.sweep now (entries (geoCache_ w)) |};
      geoCacheSetCount := geoCacheSetCount w |},
   [EvCleanup now]).
Proof. reflexivity. Qed.

Lemma set_unfold (now nowSweep : Time) (key : string) (b : ByteSlice)
    (ttl : Duration) (w : World) :
  geoCache.set now nowSweep key b ttl w =
  if Z.rem (wrap_int (geoCacheSetCount w + 1)) 50 =? 0
  then geoCache.cleanupExpired nowSweep (installed now key b ttl w)
  else (tt, installed now key b ttl w, []).
Proof.
  unfold geoCache.set, bind, modify, getWorld, ret, installed. simpl.
  destruct (Z.rem (wrap_int (geoCacheSetCount w + 1)) 50 =? 0); reflexivity.
Qed.

Lemma set_count (now nowSweep : Time) (key : string) (b : ByteSlice)
    (ttl : Duration) (w : World) :
  geoCacheSetCount (world (geoCache.set now nowSweep key b ttl w)) =
  wrap_int (geoCacheSetCount w + 1).
Proof.
  rewrite set_unfold.
  destruct (Z.rem (wrap_int (geoCacheSetCount w + 1)) 50 =? 0); reflexivity.
Qed.

Lemma set_sweeps (now nowSweep : Time) (key : string) (b : ByteSlice)
    (ttl : Duration) (w : World) :
  sweeps (trace (geoCache.set now nowSweep key b ttl w)) =
  if Z.rem (wrap_int (geoCacheSetCount w + 1)) 50 =? 0 then 1%nat else 0%nat.
Proof.
  rewrite set_unfold.
  destruct (Z.rem (wrap_int (geoCacheSetCount w + 1)) 50 =? 0); reflexivity.
Qed.


(** The entry just stored is read back as long as neither the sweep of
    that store nor the lookup comes after its expiry. *)
Lemma get_after_set (now nowSweep tGet : Time) (key : string) (b : ByteSlice)
    (ttl : Duration) (w : World) :
  nowSweep <= now + ttl ->
  result (geoCache.get tGet key (world (geoCache.set now nowSweep key b ttl w))) =
  if Time_After tGet (now + ttl) then (nil_slice, false) else (b, true).
Proof.
  intros Hsweep. rewrite get_unfold, set_unfold. unfold result. cbn [fst].
  destruct (Z.rem (wrap_int (geoCacheSetCount w + 1)) 50 =? 0).
  - rewrite cleanupExpired_unfold. unfold world. cbn [fst snd entries geoCache_].
    rewrite sweep_lookup. unfold installed. cbn [entries geoCache_].
    rewrite lookup_insert_eq. cbn [expiresAt body].
    unfold Time_After at 1, Time_Add.
    destruct (now + ttl <? nowSweep) eqn:Hlt; [apply Z.ltb_lt in Hlt; lia|].
    cbn [expiresAt body]. reflexivity.
  - unfold world, installed. cbn [fst snd entries geoCache_].
    rewrite lookup_insert_eq. reflexivity.
Qed.

Lemma get_result (t : Time) (k : string) (w : World) :
  result (geoCache.get t k w) =
  match entries (geoCache_ w) !! k with
  | None => (nil_slice, false)
  | Some e =>
      if Time_After t (expiresAt e) then (nil_slice, false) else (body e, true)
  end.
Proof. rewrite get_unfold. reflexivity. Qed.

Lemma set_entries_other (now nowSweep : Time) (key : string) (b : ByteSlice)
    (ttl : Duration) (w : World) (k' : string) :
  k' <> key ->
  entries (geoCache_ (world (geoCache.set now nowSweep key b ttl w))) !! k' =
  if Z.rem (wrap_int (geoCacheSetCount w + 1)) 50 =? 0
  then match entries (geoCache_ w) !! k' with
       | Some e => if Time_After nowSweep (expiresAt e) then None else Some e
       | None => None
       end
  else entries (geoCache_ w) !! k'.
Proof.
  intros Hne. rewrite set_unfold.
  destruct (Z.rem (wrap_int (geoCacheSetCount w + 1)) 50 =? 0).
  - rewrite cleanupExpired_unfold. unfold world, installed.
    cbn [fst snd entries geoCache_]. rewrite sweep_lookup.
    rewrite lookup_insert_ne by congruence. reflexivity.
  - unfold world, installed. cbn [fst snd entries geoCache_].
    apply lookup_insert_ne. congruence.
Qed.

(** The entry of the key just stored: it is there with the expiry
    [now + ttl], unless this store swept and the sweep's clock reading
    was already after that expiry. *)
Lemma set_entries_own (now nowSweep : Time) (key : string) (b : ByteSlice)
    (ttl : Duration) (w : World) :
  entries (geoCache_ (world (geoCache.set now nowSweep key b ttl w))) !! key =
  if (Z.rem (wrap_int (geoCacheSetCount w + 1)) 50 =? 0)
     && (now + ttl <? nowSweep)
  then None
  else Some {| body := b; expiresAt := now + ttl |}.
Proof.
  rewrite set_unfold.
  destruct (Z.rem (wrap_int (geoCacheSetCount w + 1)) 50 =? 0); cbn [andb].
  - rewrite cleanupExpired_unfold. unfold world, installed.
    cbn [fst snd entries geoCache_]. rewrite sweep_lookup, lookup_insert_eq.
    cbn [expiresAt]. unfold Time_After, Time_Add.
    destruct (now + ttl <? nowSweep); reflexivity.
  - unfold world, installed. cbn [fst snd entries geoCache_].
    apply lookup_insert_eq.
Qed.

(** ** Expiry *)

Lemma get_expired (now : Time) (key : string) (w : World) (e : geoCacheEntry) :
  entries (geoCache_ w) !! key = Some e ->
  expiresAt e < now ->
  result (geoCache.get now key w) = (nil_slice, false).
Proof.
  intros Hk Hlt. rewrite get_unfold, Hk. unfold result, Time_After. cbn [fst].
  apply Z.ltb_lt in Hlt. rewrite Hlt. reflexivity.
Qed.

(** C1 (as the code has it). A lookup returns the stored body exactly
    while the clock is not after the stored expiry, the expiry instant
    included; once the clock is after it the lookup answers "not found",
    whether or not the entry is still in the map; a key that is absent
    is "not found" as well. *)
Theorem get_expiry (now : Time) (key : string) (w : World) :
  (forall e, entries (geoCache_ w) !! key = Some e ->
             now <= expiresAt e ->
             result (geoCache.get now key w) = (body e, true)) /\
  (forall e, entries (geoCache_ w) !! key = Some e ->
             expiresAt e < now ->
             result (geoCache.get now key w) = (nil_slice, false)) /\
  (entries (geoCache_ w) !! key = None ->
   result (geoCache.get now key w) = (nil_slice, false)).
Proof.
  repeat split.
  - intros e Hk Hle. rewrite get_unfold, Hk. unfold result, Time_After. cbn [fst].
    destruct (expiresAt e <? now) eqn:Hlt; [apply Z.ltb_lt in Hlt; lia|reflexivity].
  - intros e Hk Hlt. exact (get_expired now key w e Hk Hlt).
  - intros Hk. rewrite get_unfold, Hk. reflexivity.
Qed.

(** C1, the claim as worded fails: at the expiry instant itself the entry
    is still returned. *)
Lemma get_at_expiry_instant :
  ~ (forall (now : Time) (key : string) (w : World) (e : geoCacheEntry),
        entries (geoCache_ w) !! key = Some e ->
        expiresAt e <= now ->
        result (geoCache.get now key w) = (nil_slice, false)).
Proof.
  intros Hclaim.
  specialize (Hclaim 100 "k"
    {| geoCache_ := {| entries := {["k" := {| body := Some [Byte.x7b]; expiresAt := 100 |}]} |};
       geoCacheSetCount := 1 |}
    {| body := Some [Byte.x7b]; expiresAt := 100 |}).
  rewrite get_unfold in Hclaim. cbn [entries geoCache_] in Hclaim.
  rewrite lookup_singleton_eq in Hclaim.
  specialize (Hclaim eq_refl ltac:(simpl; lia)).
  discriminate Hclaim.
Qed.

(** C3. From any state, storing the two bytes under the URL for 24 hours
    and looking the URL up right away (no later than the expiry) returns
    the two bytes; the same lookup 25 hours later returns nil and false. *)
Theorem store_lookup_scenario (w : World) (now nowSweep tGet : Time) :
  now <= nowSweep -> nowSweep <= tGet -> tGet <= now + 24 * Hour ->
  let key := "https://x/search?q=a" in
  let w' := world (geoCache.set now nowSweep key (Some [Byte.x7b; Byte.x7d])
                     (24 * Hour) w) in
  result (geoCache.get tGet key w') = (Some [Byte.x7b; Byte.x7d], true) /\
  result (geoCache.get (tGet + 25 * Hour) key w') = (nil_slice, false).
Proof.
  intros H1 H2 H3 key w'. subst w'.
  rewrite !get_after_set by lia.
  unfold Time_After, Hour, Second, Nanosecond in *. split.
  - destruct (now + 24 * (3600 * (1000000000 * 1)) <? tGet) eqn:Hlt;
      [apply Z.ltb_lt in Hlt; lia|reflexivity].
  - destruct (now + 24 * (3600 * (1000000000 * 1)) <? tGet + 25 * (3600 * (1000000000 * 1))) eqn:Hlt;
      [reflexivity|apply Z.ltb_ge in Hlt; lia].
Qed.

Lemma store_lookup_scenario_witness :
  let key := "https://x/search?q=a" in
  let w' := world (geoCache.set 1000 1001 key (Some [Byte.x7b; Byte.x7d])
                     (24 * Hour) initWorld) in
  result (geoCache.get 1002 key w') = (Some [Byte.x7b; Byte.x7d], true) /\
  result (geoCache.get (1002 + 25 * Hour) key w') = (nil_slice, false).
Proof.
  apply (store_lookup_scenario initWorld 1000 1001 1002);
    unfold Hour, Second, Nanosecond; lia.
Defined.

Lemma get_expiry_witness :
  result (geoCache.get 1006 "https://x/search?q=a"
            (installed 1000 "https://x/search?q=a" (Some [Byte.x7b]) 5 initWorld))
  = (nil_slice, false).
Proof.
  apply (proj1 (proj2 (get_expiry 1006 "https://x/search?q=a"
            (installed 1000 "https://x/search?q=a" (Some [Byte.x7b]) 5 initWorld)))
         {| body := Some [Byte.x7b]; expiresAt := 1005 |}).
  - unfold installed. cbn [entries geoCache_]. rewrite lookup_insert_eq. reflexivity.
  - simpl. lia.
Defined.

(** ** Sweep cadence *)

Lemma stores_cons (c : StoreCall) (calls : list StoreCall) (w : World) :
  world (stores (c :: calls) w) = world (stores calls (world (store c w))) /\
  trace (stores (c :: calls) w) =
  trace (store c w) ++ trace (stores calls (world (store c w))).
Proof.
  cbn [stores]. unfold bind, world, trace.
  destruct (store c w) as [[u w1] l1]. cbn [fst snd].
  destruct (stores calls w1) as [[u2 w2] l2]. split; reflexivity.
Qed.

Lemma stores_app (pre post : list StoreCall) (w : World) :
  world (stores (pre ++ post) w) = world (stores post (world (stores pre w))).
Proof.
  revert w. induction pre as [|c pre IH]; intros w.
  - reflexivity.
  - change ((c :: pre) ++ post) with (c :: (pre ++ post)).
    rewrite (proj1 (stores_cons c (pre ++ post) w)), IH.
    rewrite (proj1 (stores_cons c pre w)). reflexivity.
Qed.

Lemma sweeps_app (l1 l2 : list GeoEvent) :
  sweeps (l1 ++ l2) = (sweeps l1 + sweeps l2)%nat.
Proof. unfold sweeps. rewrite List.filter_app, List.length_app. reflexivity. Qed.

Lemma fiftieth_step (c : Z) :
  0 <= c ->
  (if Z.rem (c + 1) 50 =? 0 then 1 else 0) = (c + 1) / 50 - c / 50.
Proof.
  intros Hc. rewrite Z.rem_mod_nonneg by lia.
  destruct ((c + 1) mod 50 =? 0) eqn:Hm.
  - apply Z.eqb_eq in Hm. Z.div_mod_to_equations. lia.
  - apply Z.eqb_neq in Hm. Z.div_mod_to_equations. lia.
Qed.

(** From a counter that cannot overflow during the run, the counter
    counts the stores and the sweeps are the multiples of 50 crossed. *)
Lemma stores_count_sweeps (calls : list StoreCall) (w : World) :
  0 <= geoCacheSetCount w ->
  geoCacheSetCount w + Z.of_nat (List.length calls) <= int_max ->
  geoCacheSetCount (world (stores calls w)) =
    geoCacheSetCount w + Z.of_nat (List.length calls) /\
  Z.of_nat (sweeps (trace (stores calls w))) =
    (geoCacheSetCount w + Z.of_nat (List.length calls)) / 50
    - geoCacheSetCount w / 50.
Proof.
  revert w. induction calls as [|c calls IH]; intros w H0 Hmax.
  - cbn [List.length stores Z.of_nat]. unfold ret, world, trace, sweeps.
    cbn [fst snd List.filter List.length Z.of_nat]. rewrite !Z.add_0_r.
    split; lia.
  - destruct (stores_cons c calls w) as [-> ->].
    cbn [List.length] in *.
    assert (Hw : wrap_int (geoCacheSetCount w + 1) = geoCacheSetCount w + 1).
    { apply wrap_int_small. unfold int_min, int_max in *. lia. }
    assert (Hc : geoCacheSetCount (world (store c w)) = geoCacheSetCount w + 1).
    { unfold store. rewrite set_count. exact Hw. }
    destruct (IH (world (store c w))) as [IHc IHs]; [lia | lia |].
    rewrite IHc, sweeps_app, Nat2Z.inj_add, IHs, Hc.
    unfold store at 1. rewrite set_sweeps, Hw.
    pose proof (fiftieth_step (geoCacheSetCount w) H0) as Hstep.
    replace (geoCacheSetCount w + 1 + Z.of_nat (List.length calls))
      with (geoCacheSetCount w + Z.of_nat (S (List.length calls))) by lia.
    split; [lia|].
    destruct (Z.rem (geoCacheSetCount w + 1) 50 =? 0); cbn [Z.of_nat] in *; lia.
Qed.

(** C2. From a fresh counter, the sweep runs during a store exactly when
    that store is the 50th, 100th, 150th, ... of the run, whatever the
    keys, bodies, clock readings and times to live; so a run of [n]
    stores sweeps [n / 50] times, and a run of 150 stores sweeps exactly
    3 times.  (The run is shorter than the range of the counter.) *)
Theorem sweep_every_50th_store (calls : list StoreCall) (w : World) :
  geoCacheSetCount w = 0 ->
  Z.of_nat (List.length calls) <= int_max ->
  (forall pre c post, calls = pre ++ c :: post ->
     sweeps (trace (store c (world (stores pre w)))) =
     if Z.of_nat (S (List.length pre)) mod 50 =? 0 then 1%nat else 0%nat) /\
  Z.of_nat (sweeps (trace (stores calls w))) = Z.of_nat (List.length calls) / 50 /\
  (List.length calls = 150%nat -> sweeps (trace (stores calls w)) = 3%nat).
Proof.
  intros Hfresh Hmax.
  assert (Htotal : Z.of_nat (sweeps (trace (stores calls w))) =
                   Z.of_nat (List.length calls) / 50).
  { destruct (stores_count_sweeps calls w) as [_ Hs]; [lia | lia |].
    rewrite Hs, Hfresh, Z.add_0_l. change (0 / 50) with 0. lia. }
  split; [|split].
  - intros pre c post ->.
    rewrite List.length_app in Hmax. cbn [List.length] in Hmax.
    destruct (stores_count_sweeps pre w) as [Hc _]; [lia | lia |].
    unfold store. rewrite set_sweeps, Hc, Hfresh, Z.add_0_l.
    rewrite wrap_int_small by (unfold int_min, int_max in *; lia).
    rewrite Z.rem_mod_nonneg by lia.
    replace (Z.of_nat (S (List.length pre))) with (Z.of_nat (List.length pre) + 1) by lia.
    reflexivity.
  - exact Htotal.
  - intros Hlen. rewrite Hlen in Htotal.
    change (Z.of_nat 150 / 50) with 3 in Htotal. lia.
Qed.

Lemma sweep_every_50th_store_witness :
  sweeps (trace (stores sampleCalls initWorld)) = 3%nat.
Proof.
  apply (sweep_every_50th_store sampleCalls initWorld).
  - reflexivity.
  - vm_compute. discriminate.
  - reflexivity.
Defined.

(** ** Reads, and what the sweep removes *)

(** C10. A lookup leaves the package state as it was and does nothing
    else, so an expired entry stays in the map, though the lookup does
    not return it; a store that does not sweep removes no entry; the
    sweep removes exactly the entries the clock is after, every other
    entry and the counter staying as they were. *)
Theorem get_read_only_sweep_exact (now : Time) (key : string) (w : World) :
  (world (geoCache.get now key w) = w /\ trace (geoCache.get now key w) = []) /\
  (forall e, entries (geoCache_ w) !! key = Some e -> expiresAt e < now ->
     result (geoCache.get now key w) = (nil_slice, false) /\
     entries (geoCache_ (world (geoCache.get now key w))) !! key = Some e) /\
  (forall tSet tSweep k b ttl k',
     Z.rem (wrap_int (geoCacheSetCount w + 1)) 50 <> 0 -> k' <> k ->
     entries (geoCache_ (world (geoCache.set tSet tSweep k b ttl w))) !! k' =
     entries (geoCache_ w) !! k') /\
  (forall k,
     entries (geoCache_ (world (geoCache.cleanupExpired now w))) !! k =
     match entries (geoCache_ w) !! k with
     | Some e => if Time_After now (expiresAt e) then None else Some e
     | None => None
     end) /\
  geoCacheSetCount (world (geoCache.cleanupExpired now w)) = geoCacheSetCount w.
Proof.
  repeat split.
  - rewrite get_unfold. reflexivity.
  - rewrite get_unfold. reflexivity.
  - apply (get_expired now key w e); assumption.
  - rewrite get_unfold. unfold world. cbn [fst snd]. assumption.
  - intros tSet tSweep k b ttl k' Hrem Hne.
    rewrite set_unfold. apply Z.eqb_neq in Hrem. rewrite Hrem.
    unfold world, installed. cbn [fst snd entries geoCache_].
    apply lookup_insert_ne. congruence.
  - intros k. rewrite cleanupExpired_unfold. unfold world.
    cbn [fst snd entries geoCache_]. apply sweep_lookup.
Qed.

Lemma get_read_only_sweep_exact_witness :
  let w := installed 1000 "https://x/search?q=a" (Some [Byte.x7b]) 5 initWorld in
  result (geoCache.get 1006 "https://x/search?q=a" w) = (nil_slice, false) /\
  entries (geoCache_ (world (geoCache.get 1006 "https://x/search?q=a" w)))
    !! "https://x/search?q=a" = Some {| body := Some [Byte.x7b]; expiresAt := 1005 |}.
Proof.
  intros w.
  apply (proj1 (proj2 (get_read_only_sweep_exact 1006 "https://x/search?q=a" w))
           {| body := Some [Byte.x7b]; expiresAt := 1005 |}).
  - unfold w, installed. cbn [entries geoCache_]. rewrite lookup_insert_eq. reflexivity.
  - simpl. lia.
Defined.

(** * Properties of the proxy *)

Section ProxyFacts.
Variable os_Getenv : string -> string.
Variable url_Parse : string -> option error.
Variable geoHTTPClient_Do : Request -> Response + error.
Variables tGet tSet tSweep : Time.
Variable nominatimURL : string.
Variable w : World.

Local Abbreviation proxy :=
  (nominatimProxy os_Getenv url_Parse geoHTTPClient_Do tGet tSet tSweep
     nominatimURL newResponseWriter w).
Local Abbreviation req := (upstreamRequest os_Getenv nominatimURL).
Local Abbreviation jsonWriter :=
  (rw_Header_Set "Content-Type" "application/json; charset=utf-8"
     newResponseWriter).

(** The run of the proxy on a cache miss, case by case. *)
Lemma proxy_miss :
  (result (geoCache.get tGet nominatimURL w)).2 = false ->
  proxy =
  match url_Parse nominatimURL with
  | Some _ =>
      (http_Error newResponseWriter "Erreur requête geo"
         StatusInternalServerError, w, [])
  | None =>
      match geoHTTPClient_Do req with
      | inr _ =>
          (http_Error newResponseWriter "Service géolocalisation indisponible"
             StatusBadGateway, w, [EvUpstream req])
      | inl resp =>
          match resp_Body resp with
          | (_, Some _) =>
              (http_Error newResponseWriter "Erreur lecture réponse geo"
                 StatusInternalServerError, w, [EvUpstream req])
          | (b, None) =>
              let sent :=
                rw_Write (bytes_of b)
                  (rw_WriteHeader (resp_StatusCode resp) jsonWriter) in
              if (resp_StatusCode resp =? StatusOK) && (0 <? len b)
              then
                let r := geoCache.set tSet tSweep nominatimURL b (24 * Hour) w in
                (sent, world r, EvUpstream req :: trace r)
              else (sent, w, [EvUpstream req])
          end
      end
  end.
Proof.
  intros Hmiss. unfold nominatimProxy, bind at 1.
  rewrite get_unfold in *. unfold result in Hmiss. cbn [fst snd] in Hmiss.
  rewrite Hmiss. unfold http_NewRequestWithContext.
  destruct (url_Parse nominatimURL) as [err|]; [reflexivity|].
  fold req. unfold upstreamRequest. unfold bind, emit. cbn [fst snd].
  destruct (geoHTTPClient_Do _) as [resp|err]; [|reflexivity].
  unfold io_ReadAll. destruct (resp_Body resp) as [b [err|]]; [reflexivity|].
  destruct ((resp_StatusCode resp =? StatusOK) && (0 <? len b)).
  - unfold world, trace.
    destruct (geoCache.set tSet tSweep nominatimURL b (24 * Hour) w) as [[u w1] l1].
    unfold ret. cbn [fst snd app]. rewrite app_nil_r. reflexivity.
  - reflexivity.
Qed.
Lemma http_Error_code (msg : string) (code : Z) :
  rw_Code (http_Error newResponseWriter msg code) = Some code.
Proof. reflexivity. Qed.


Lemma cacheable_spec (code : Z) (b : ByteSlice) :
  (code =? StatusOK) && (0 <? len b) = true <-> code = 200 /\ 0 < len b.
Proof.
  rewrite andb_true_iff, Z.eqb_eq, Z.ltb_lt. unfold StatusOK. reflexivity.
Qed.


(** C5 (as the code has it). On a cache miss, a request that cannot be
    built is answered with status 500 and nothing is sent upstream; a
    transport failure that makes the call of the client fail is answered
    with status 502 after the one request that failed; a failure while
    the body of a received answer is read is answered with status 500,
    again after one request; the package state is as before in the
    three cases; and no run of the proxy sends more than one request
    upstream. *)
Theorem proxy_failure_mapping :
  (result (geoCache.get tGet nominatimURL w)).2 = false ->
  (forall err, url_Parse nominatimURL = Some err ->
     rw_Code (result proxy) = Some 500 /\
     trace proxy = [] /\ world proxy = w) /\
  (forall err, url_Parse nominatimURL = None ->
     geoHTTPClient_Do req = inr err ->
     rw_Code (result proxy) = Some 502 /\
     trace proxy = [EvUpstream req] /\ world proxy = w) /\
  (forall resp b err, url_Parse nominatimURL = None ->
     geoHTTPClient_Do req = inl resp ->
     resp_Body resp = (b, Some err) ->
     rw_Code (result proxy) = Some 500 /\
     trace proxy = [EvUpstream req] /\ world proxy = w) /\
  (List.length (List.filter isUpstream (trace proxy)) <= 1)%nat.
Proof.
  intros Hmiss. rewrite (proxy_miss Hmiss). split; [|split; [|split]].
  - intros err Hparse. rewrite Hparse. repeat split.
  - intros err Hparse Hdo. rewrite Hparse, Hdo. repeat split.
  - intros resp b err Hparse Hdo Hbody. rewrite Hparse, Hdo, Hbody.
    repeat split.
  - destruct (url_Parse nominatimURL) as [err|]; [cbn; lia|].
    destruct (geoHTTPClient_Do req) as [resp|err]; [|cbn; lia].
    destruct (resp_Body resp) as [b [err|]]; [cbn; lia|].
    cbv zeta.
    destruct ((resp_StatusCode resp =? StatusOK) && (0 <? len b)); [|cbn; lia].
    unfold trace at 1. cbn [snd List.filter isUpstream isCleanup negb List.length].
    rewrite set_unfold.
    destruct (Z.rem (wrap_int (geoCacheSetCount w + 1)) 50 =? 0); cbn; lia.
Qed.
End ProxyFacts.

(** * Properties of the image pipeline *)

Section IngestFacts.
Variable Image : Type.
Variable Bounds : Image -> Rectangle.
Variable os_Getenv : string -> string.
Variable image_Decode : list Byte.byte -> (Image * string) + error.
Variable resize_Resize : Z -> Z -> Image -> InterpolationFunction -> Image.
Variable jpeg_Encode : Image -> Z -> list Byte.byte + error.
Variable url_Parse : string -> option error.
Variable uploadHTTPClient_Do : Request -> Response + error.
Variable nowUnix : Z.
Variable file : list Byte.byte.
Variable header : option FileHeader.
Variable tastingID : string.
Variable w : World.

Local Abbreviation Ev := (IngestEvent Image).
Local Abbreviation ingest :=
  (processAndUploadImage Image Bounds os_Getenv image_Decode resize_Resize
     jpeg_Encode url_Parse uploadHTTPClient_Do nowUnix file header tastingID w).
Local Abbreviation enc := (encoded Image Bounds resize_Resize).
Local Abbreviation upReq := (uploadRequest os_Getenv nowUnix tastingID).

Local Abbreviation logToEncode := (upToEncode Image Bounds resize_Resize file).
Local Abbreviation answer := (afterUpload os_Getenv nowUnix tastingID).

(** A run of the pipeline, case by case. *)
Lemma ingest_run :
  ingest =
  if negb (configured os_Getenv) then ("", Some errConfig, w, [])
  else if oversize header then ("", Some errTooLarge, w, [])
  else
    match image_Decode file with
    | inr err => ("", Some (wrapError "decode image: " err), w, [EvDecode file])
    | inl (img, _) =>
        match jpeg_Encode (enc img) JpegQuality with
        | inr err =>
            ("", Some (wrapError "encode jpeg: " err), w, logToEncode img)
        | inl buf =>
            match url_Parse (uploadURL os_Getenv nowUnix tastingID) with
            | Some err => ("", Some err, w, logToEncode img)
            | None =>
                match uploadHTTPClient_Do (upReq buf) with
                | inr err =>
                    ("", Some err, w, logToEncode img ++ [EvUpload (upReq buf)])
                | inl resp =>
                    (answer resp, w,
                     logToEncode img ++ [EvUpload (upReq buf)])
                end
            end
        end
    end.
Proof.
  unfold processAndUploadImage, configured, oversize, supabaseURL, jwtKey.
  destruct (String.eqb _ "" || String.eqb _ ""); [reflexivity|].
  cbn [negb].
  destruct (match header with Some h => MaxUploadSize <? fh_Size h | None => false end);
    [reflexivity|].
  unfold bind at 1, emit at 1.
  destruct (image_Decode file) as [[img format]|err]; [|reflexivity].
  unfold upToEncode, encoded.
  destruct (MaxImageWidth <? Dx (Bounds img)).
  - unfold bind, emit, ret. cbn [fst snd app].
    destruct (jpeg_Encode _ JpegQuality) as [buf|err]; [|reflexivity].
    unfold http_NewRequestWithContext, uploadURL, fileName, supabaseURL.
    destruct (url_Parse _) as [err|]; [reflexivity|].
    unfold uploadRequest, uploadURL, fileName, supabaseURL, jwtKey.
    destruct (uploadHTTPClient_Do _) as [resp|err]; [|reflexivity].
    unfold afterUpload, io_ReadAll, publicURL, fileName, supabaseURL.
    destruct ((resp_StatusCode resp <? 200) || (300 <=? resp_StatusCode resp));
      reflexivity.
  - unfold bind, emit, ret. cbn [fst snd app].
    destruct (jpeg_Encode _ JpegQuality) as [buf|err]; [|reflexivity].
    unfold http_NewRequestWithContext, uploadURL, fileName, supabaseURL.
    destruct (url_Parse _) as [err|]; [reflexivity|].
    unfold uploadRequest, uploadURL, fileName, supabaseURL, jwtKey.
    destruct (uploadHTTPClient_Do _) as [resp|err]; [|reflexivity].
    unfold afterUpload, io_ReadAll, publicURL, fileName, supabaseURL.
    destruct ((resp_StatusCode resp <? 200) || (300 <=? resp_StatusCode resp));
      reflexivity.
Qed.
Lemma upload_not_before_encode (img : Image) (r : Request) :
  ~ In (EvUpload r) (logToEncode img).
Proof.
  unfold upToEncode.
  destruct (MaxImageWidth <? Dx (Bounds img)); cbn; intros H;
    intuition discriminate.
Qed.

(** A run that called the decoder was configured and not oversize. *)
Lemma decode_attempted :
  In (EvDecode file) (trace ingest) ->
  configured os_Getenv = true /\ oversize header = false.
Proof.
  rewrite ingest_run.
  destruct (configured os_Getenv); [|intros []].
  destruct (oversize header); [intros []|]. auto.
Qed.

(** Both settings are present when neither is empty once trimmed: the
    URL of its final slashes, the key of the white space around it. *)
Lemma configured_spec :
  configured os_Getenv = true <->
  strings_TrimRight (os_Getenv "SUPABASE_URL") "/" <> "" /\
  strings_TrimSpace (os_Getenv "SUPABASE_SERVICE_ROLE_KEY") <> "".
Proof.
  unfold configured, supabaseURL, jwtKey.
  rewrite negb_true_iff, orb_false_iff, !String.eqb_neq. reflexivity.
Qed.

(** C7 (as the code has it). A call whose header declares more than
    10 MiB fails before anything is decoded, with the state untouched:
    with the too-large error when both storage settings are present, and
    with the missing-settings error when one is absent, that is, empty
    once the URL is trimmed of its final slashes and the key of the
    white space around it. *)
Theorem oversize_rejected_before_decode (h : FileHeader) :
  header = Some h ->
  MaxUploadSize < fh_Size h ->
  trace ingest = [] /\
  world ingest = w /\
  result ingest =
    ("", Some (if configured os_Getenv then errTooLarge else errConfig)) /\
  (configured os_Getenv = true <->
   strings_TrimRight (os_Getenv "SUPABASE_URL") "/" <> "" /\
   strings_TrimSpace (os_Getenv "SUPABASE_SERVICE_ROLE_KEY") <> "").
Proof.
  intros Hh Hsize.
  assert (Hov : oversize header = true).
  { rewrite Hh. unfold oversize. apply Z.ltb_lt. exact Hsize. }
  refine (conj _ (conj _ (conj _ configured_spec)));
    rewrite ingest_run, Hov; destruct (configured os_Getenv); reflexivity.
Qed.

(** C6. For an image that was decoded: if it is at most 1200 wide, the
    resize library is not called and the encoder receives the decoded
    image itself; if it is wider, the library is asked once for width
    1200 and height 0 and the encoder receives its answer, which (for
    an input with rows) is 1200 wide and keeps the aspect ratio to less
    than one pixel of height. *)
Theorem resize_threshold (img : Image) (format : string) :
  keepsAspectRatio Image Bounds resize_Resize ->
  image_Decode file = inl (img, format) ->
  In (EvDecode file) (trace ingest) ->
  (Dx (Bounds img) <= 1200 ->
     existsb (isResize Image) (trace ingest) = false /\
     exists rest,
       trace ingest = EvDecode file :: EvEncode img JpegQuality :: rest) /\
  (1200 < Dx (Bounds img) ->
     let out := resize_Resize 1200 0 img Lanczos3 in
     (exists rest,
        trace ingest =
        EvDecode file :: EvResize 1200 0 img Lanczos3
        :: EvEncode out JpegQuality :: rest) /\
     (0 < Dy (Bounds img) ->
      Dx (Bounds out) = 1200 /\
      Z.abs (Dy (Bounds out) * Dx (Bounds img) - Dy (Bounds img) * 1200)
        < Dx (Bounds img))).
Proof.
  intros Hlib Hdec Hin.
  destruct (decode_attempted Hin) as [Hcfg Hov].
  rewrite ingest_run, Hcfg, Hov, Hdec. cbn [negb].
  unfold upToEncode, encoded, MaxImageWidth.
  split.
  - intros Hle.
    destruct (1200 <? Dx (Bounds img)) eqn:Hlt; [apply Z.ltb_lt in Hlt; lia|].
    cbn [app].
    destruct (jpeg_Encode img JpegQuality) as [buf|err];
      [|split; [reflexivity|eexists; reflexivity]].
    destruct (url_Parse _) as [err|];
      [split; [reflexivity|eexists; reflexivity]|].
    destruct (uploadHTTPClient_Do _) as [resp|err];
      (split; [reflexivity|eexists; reflexivity]).
  - intros Hgt. cbv zeta.
    assert (Hlt : (1200 <? Dx (Bounds img)) = true) by (apply Z.ltb_lt; exact Hgt).
    rewrite Hlt. cbn [app].
    split.
    + destruct (jpeg_Encode _ JpegQuality) as [buf|err];
        [|eexists; reflexivity].
      destruct (url_Parse _) as [err|]; [eexists; reflexivity|].
      destruct (uploadHTTPClient_Do _) as [resp|err]; eexists; reflexivity.
    + intros Hpos. apply (Hlib 1200 img Lanczos3); lia.
Qed.
(** C8. For an input that was decoded, whatever its format, the encoder
    is called on the (possibly resized) image with quality 80, and every
    upload carries exactly the bytes the encoder wrote, declared as
    image/jpeg; these bytes decode as JPEG.  When the encoder succeeds
    and the storage URL parses, that upload is made. *)
Theorem always_reencoded_as_jpeg (img : Image) (format : string) :
  encodesJPEG Image image_Decode jpeg_Encode ->
  image_Decode file = inl (img, format) ->
  In (EvDecode file) (trace ingest) ->
  In (EvEncode (enc img) 80) (trace ingest) /\
  (forall r, In (EvUpload r) (trace ingest) ->
     exists buf img',
       jpeg_Encode (enc img) 80 = inl buf /\
       req_Body r = Some buf /\
       req_Header r !! "Content-Type" = Some "image/jpeg" /\
       image_Decode buf = inl (img', "jpeg")) /\
  (forall buf,
     jpeg_Encode (enc img) 80 = inl buf ->
     url_Parse (uploadURL os_Getenv nowUnix tastingID) = None ->
     In (EvUpload (upReq buf)) (trace ingest)).
Proof.
  intros Hcodec Hdec Hin.
  destruct (decode_attempted Hin) as [Hcfg Hov].
  rewrite ingest_run, Hcfg, Hov, Hdec. cbn [negb].
  change 80 with JpegQuality.
  assert (Henc : In (EvEncode (enc img) JpegQuality) (logToEncode img)).
  { unfold upToEncode. right. apply in_or_app. right. left. reflexivity. }
  assert (Hup : forall buf r,
             jpeg_Encode (enc img) JpegQuality = inl buf ->
             In (EvUpload r) (logToEncode img ++ [EvUpload (upReq buf)]) ->
             req_Body r = Some buf /\
             req_Header r !! "Content-Type" = Some "image/jpeg" /\
             exists img', image_Decode buf = inl (img', "jpeg")).
  { intros buf r Hbuf Hr. apply in_app_or in Hr.
    destruct Hr as [Hr|[Hr|[]]]; [destruct (upload_not_before_encode img r Hr)|].
    injection Hr as <-.
    split; [reflexivity|]. split; [|exact (Hcodec _ _ _ Hbuf)].
    unfold uploadRequest, Request_Header_Set, Header_Set. cbn [req_Header].
    rewrite lookup_insert_ne by discriminate. apply lookup_insert_eq. }
  destruct (jpeg_Encode (enc img) JpegQuality) as [buf|err] eqn:Hbuf.
  2:{ split; [exact Henc|]. split.
      - intros r Hr. destruct (upload_not_before_encode img r Hr).
      - intros buf Hb. discriminate Hb. }
  destruct (url_Parse _) as [err|] eqn:Hurl.
  { split; [exact Henc|]. split.
    - intros r Hr. destruct (upload_not_before_encode img r Hr).
    - intros buf' _ Hn. discriminate Hn. }
  assert (Hlast : forall buf', @inl _ error buf = inl buf' ->
            In (EvUpload (upReq buf'))
              (logToEncode img ++ [EvUpload (upReq buf)])).
  { intros buf' Hb. injection Hb as <-. apply in_or_app. right. left. reflexivity. }
  destruct (uploadHTTPClient_Do _) as [resp|err]; unfold trace; cbn [snd].
  - split; [apply in_or_app; left; exact Henc|]. split.
    + intros r Hr. destruct (Hup buf r eq_refl Hr) as (Hb & Hh & img' & Hd).
      exists buf, img'. auto.
    + intros buf' Hb _. apply Hlast. exact Hb.
  - split; [apply in_or_app; left; exact Henc|]. split.
    + intros r Hr. destruct (Hup buf r eq_refl Hr) as (Hb & Hh & img' & Hd).
      exists buf, img'. auto.
    + intros buf' Hb _. apply Hlast. exact Hb.
Qed.

(** C9. When the storage endpoint answers an upload with a status
    outside 200..299, the pipeline returns no URL and an [httpError]
    holding the status line and the body of that answer, and leaves the
    package state (the cache and its counter) as it was; the error
    prints as the status line, followed by the body when there is one. *)
Theorem upload_rejected (r : Request) (resp : Response) :
  In (EvUpload r) (trace ingest) ->
  uploadHTTPClient_Do r = inl resp ->
  resp_StatusCode resp < 200 \/ 300 <= resp_StatusCode resp ->
  let err := httpError (resp_Status resp) (string_of_slice (resp_Body resp).1) in
  result ingest = ("", Some err) /\
  world ingest = w /\
  error_Error err =
    if String.eqb (string_of_slice (resp_Body resp).1) "" then resp_Status resp
    else resp_Status resp +:+ " - " +:+ string_of_slice (resp_Body resp).1.
Proof.
  intros Hin Hdo Hcode err.
  assert (Hbad : (resp_StatusCode resp <? 200) || (300 <=? resp_StatusCode resp) = true).
  { apply orb_true_iff. rewrite Z.ltb_lt, Z.leb_le. exact Hcode. }
  revert Hin. rewrite ingest_run.
  destruct (configured os_Getenv); cbn [negb]; [|intros []].
  destruct (oversize header); [intros []|].
  destruct (image_Decode file) as [[img format]|e];
    [|intros [Hin|[]]; discriminate Hin].
  destruct (jpeg_Encode _ JpegQuality) as [buf|e];
    [|intros Hin; destruct (upload_not_before_encode img r Hin)].
  destruct (url_Parse _) as [e|];
    [intros Hin; destruct (upload_not_before_encode img r Hin)|].
  assert (Hreq : In (EvUpload r) (logToEncode img ++ [EvUpload (upReq buf)]) ->
                 uploadHTTPClient_Do (upReq buf) = inl resp).
  { intros Hin. apply in_app_or in Hin.
    destruct Hin as [Hin|[Hin|[]]]; [destruct (upload_not_before_encode img r Hin)|].
    injection Hin as <-. exact Hdo. }
  destruct (uploadHTTPClient_Do (upReq buf)) as [resp'|e] eqn:Hdo';
    intros Hin; specialize (Hreq Hin); [|discriminate Hreq].
  injection Hreq as ->.
  unfold result, world, afterUpload. cbn [fst snd].
  rewrite Hbad. repeat split.
Qed.
End IngestFacts.

(** * The properties on the sample inputs *)

Lemma wrap_clamp (z : Z) : wrap_int (clamp z - 0) = clamp z.
Proof.
  rewrite Z.sub_0_r. apply wrap_int_small. unfold clamp, int_min, int_max. lia.
Qed.

Lemma pmResize_keepsAspectRatio : keepsAspectRatio Pixmap pmBounds pmResize.
Proof.
  intros width p interp Hw Hlt Hh. cbv zeta.
  unfold pmResize, pmBounds, Dx, Dy in *. cbn [X Y Min Max pm_w pm_h] in *.
  rewrite !wrap_clamp in *. cbn [Z.eqb].
  set (W := clamp (pm_w p)) in *. set (H := clamp (pm_h p)) in *.
  assert (HW : 0 < W <= 65535) by (unfold W, clamp in *; lia).
  assert (HH : 0 < H <= 65535) by (unfold H, clamp in *; lia).
  set (q := (7 * W + 10 * H * width) / (10 * W)).
  assert (Hq1 : 10 * W * q <= 7 * W + 10 * H * width).
  { unfold q. apply Z.mul_div_le. lia. }
  assert (Hq2 : 7 * W + 10 * H * width < 10 * W * (q + 1)).
  { unfold q. rewrite Z.mul_add_distr_l, Z.mul_1_r.
    pose proof (Z.mod_pos_bound (7 * W + 10 * H * width) (10 * W) ltac:(lia)) as Hm.
    pose proof (Z.div_mod (7 * W + 10 * H * width) (10 * W) ltac:(lia)) as Hd.
    lia. }
  assert (Hq0 : 0 <= q) by (unfold q; apply Z.div_pos; nia).
  assert (HqH : q <= H) by nia.
  assert (Hcw : clamp width = width) by (unfold clamp; lia).
  assert (Hcq : clamp q = q) by (unfold clamp; lia).
  rewrite Hcw, Hcq. split; [reflexivity|].
  apply Z.abs_lt. nia.
Qed.

Lemma pm_encodesJPEG : encodesJPEG Pixmap pmDecode pmEncode.
Proof.
  intros p quality buf Henc. unfold pmEncode in Henc. injection Henc as <-.
  unfold pmDecode. eexists. reflexivity.
Qed.



Lemma proxy_failure_mapping_witness :
  let run := nominatimProxy noGetenv sampleParse sampleGeoDo 1000 1001 1002
               "https://down/search?q=a" newResponseWriter initWorld in
  rw_Code (result run) = Some 502 /\
  trace run = [EvUpstream (upstreamRequest noGetenv "https://down/search?q=a")] /\
  world run = initWorld.
Proof.
  intros run.
  exact (proj1 (proj2 (proxy_failure_mapping noGetenv sampleParse sampleGeoDo
                         1000 1001 1002 "https://down/search?q=a" initWorld
                         eq_refl))
           (libError "dial tcp: connection refused") eq_refl eq_refl).
Defined.

(** C5, the claim as worded fails: when the transport fails while the
    body is read (here the timeout of the client), the answer is status
    500, not 502. *)
Lemma transport_failure_reading_body :
  ~ (forall (Do : Request -> Response + error),
        (forall r, match Do r with
                   | inr _ => True
                   | inl resp => (resp_Body resp).2 <> None
                   end) ->
        rw_Code (result (nominatimProxy noGetenv sampleParse Do 1000 1001 1002
                           "https://x/search?q=a" newResponseWriter initWorld))
        = Some 502).
Proof.
  intros Hclaim.
  assert (Hfail : forall r, match stalledDo r with
                            | inr _ => True
                            | inl resp => (resp_Body resp).2 <> None
                            end).
  { intros r. cbn. discriminate. }
  specialize (Hclaim stalledDo Hfail).
  vm_compute in Hclaim. discriminate Hclaim.
Qed.

(** An oversize upload with both settings, and one with a key that is
    set to a no-break space. *)
Lemma oversize_rejected_before_decode_witness :
  let run := processAndUploadImage Pixmap pmBounds sampleGetenv pmDecode
               pmResize pmEncode sampleParse acceptingDo 1700000000 widePNG
               (Some bigHeader) "42" initWorld in
  let blank := processAndUploadImage Pixmap pmBounds blankGetenv pmDecode
                 pmResize pmEncode sampleParse acceptingDo 1700000000 widePNG
                 (Some bigHeader) "42" initWorld in
  (trace run = [] /\ world run = initWorld /\
   result run = ("", Some errTooLarge)) /\
  (trace blank = [] /\ result blank = ("", Some errConfig)).
Proof.
  intros run blank. split.
  - destruct (oversize_rejected_before_decode Pixmap pmBounds sampleGetenv
                pmDecode pmResize pmEncode sampleParse acceptingDo 1700000000
                widePNG (Some bigHeader) "42" initWorld bigHeader eq_refl
                eq_refl) as (Ht & Hw & Hr & _).
    split; [exact Ht|]. split; [exact Hw|]. exact Hr.
  - destruct (oversize_rejected_before_decode Pixmap pmBounds blankGetenv
                pmDecode pmResize pmEncode sampleParse acceptingDo 1700000000
                widePNG (Some bigHeader) "42" initWorld bigHeader eq_refl
                eq_refl) as (Ht & _ & Hr & _).
    split; [exact Ht|]. exact Hr.
Defined.

(** C7, the claim as worded fails: without the storage settings an
    oversize upload is refused for the missing settings, not for its
    size. *)
Lemma oversize_without_settings :
  ~ (MaxUploadSize < fh_Size bigHeader ->
     result (processAndUploadImage Pixmap pmBounds noGetenv pmDecode pmResize
               pmEncode sampleParse acceptingDo 1700000000 widePNG
               (Some bigHeader) "42" initWorld)
     = ("", Some errTooLarge)).
Proof.
  intros Hclaim. specialize (Hclaim eq_refl).
  vm_compute in Hclaim. discriminate Hclaim.
Qed.

Lemma resize_threshold_witness :
  let img := {| pm_w := 2400; pm_h := 1000 |} in
  let out := pmResize 1200 0 img Lanczos3 in
  Dx (pmBounds out) = 1200 /\
  Z.abs (Dy (pmBounds out) * Dx (pmBounds img) - Dy (pmBounds img) * 1200)
    < Dx (pmBounds img).
Proof.
  intros img out.
  assert (Hin : In (EvDecode widePNG)
                  (trace (processAndUploadImage Pixmap pmBounds sampleGetenv
                            pmDecode pmResize pmEncode sampleParse acceptingDo
                            1700000000 widePNG (Some okHeader) "42" initWorld))).
  { vm_compute. left. reflexivity. }
  apply (proj2 (proj2 (resize_threshold Pixmap pmBounds sampleGetenv pmDecode
                         pmResize pmEncode sampleParse acceptingDo 1700000000
                         widePNG (Some okHeader) "42" initWorld img "png"
                         pmResize_keepsAspectRatio eq_refl Hin)
                  ltac:(vm_compute; reflexivity))).
  vm_compute. reflexivity.
Defined.

Lemma always_reencoded_as_jpeg_witness :
  let run := processAndUploadImage Pixmap pmBounds sampleGetenv pmDecode
               pmResize pmEncode sampleParse acceptingDo 1700000000 widePNG
               (Some okHeader) "42" initWorld in
  In (EvEncode {| pm_w := 1200; pm_h := 500 |} 80) (trace run) /\
  In (EvUpload (uploadRequest sampleGetenv 1700000000 "42"
                  [Byte.xff; Byte.x04; Byte.xb0; Byte.x01; Byte.xf4]))
     (trace run).
Proof.
  intros run.
  assert (Hin : In (EvDecode widePNG) (trace run)).
  { vm_compute. left. reflexivity. }
  pose proof (always_reencoded_as_jpeg Pixmap pmBounds sampleGetenv pmDecode
                pmResize pmEncode sampleParse acceptingDo 1700000000 widePNG
                (Some okHeader) "42" initWorld
                {| pm_w := 2400; pm_h := 1000 |} "png"
                pm_encodesJPEG eq_refl Hin) as (Henc & _ & Hup).
  split; [exact Henc|].
  apply (Hup [Byte.xff; Byte.x04; Byte.xb0; Byte.x01; Byte.xf4]);
    vm_compute; reflexivity.
Defined.

Lemma upload_rejected_witness :
  let run := processAndUploadImage Pixmap pmBounds sampleGetenv pmDecode
               pmResize pmEncode sampleParse rejectingDo 1700000000 smallJPEG
               (Some okHeader) "42" initWorld in
  result run = ("", Some (httpError "403 Forbidden" "no")) /\
  world run = initWorld.
Proof.
  intros run.
  assert (Hin : In (EvUpload (uploadRequest sampleGetenv 1700000000 "42" smallJPEG))
                  (trace run)).
  { right. right. left. reflexivity. }
  assert (Hcode : resp_StatusCode forbidden < 200 \/ 300 <= resp_StatusCode forbidden).
  { right. cbn. lia. }
  pose proof (upload_rejected Pixmap pmBounds sampleGetenv pmDecode pmResize
                pmEncode sampleParse rejectingDo 1700000000 smallJPEG
                (Some okHeader) "42" initWorld
                (uploadRequest sampleGetenv 1700000000 "42" smallJPEG)
                forbidden Hin eq_refl Hcode) as H.
  cbv zeta in H. destruct H as (Hres & Hworld & _).
  split; [exact Hres | exact Hworld].
Defined.

(** * Further properties of the cache *)

(** X1. Store then lookup, for any key, body and time to live.  When the
    store's own sweep does not come after the expiry, the body is read
    back at every instant up to and including [now + ttl] and never
    after, and a second store under the same key replaces the first.
    Whatever the sweep does, the key never answers with anything but
    the body just stored, and never after [now + ttl]; so an entry
    stored with a negative time to live is never read back from the
    store instant on. *)
Theorem store_then_lookup (w : World) (now nowSweep t : Time) (key : string)
    (b : ByteSlice) (ttl : Duration) :
  let w' := world (geoCache.set now nowSweep key b ttl w) in
  (nowSweep <= now + ttl ->
   result (geoCache.get t key w') =
     (if t <=? now + ttl then (b, true) else (nil_slice, false)) /\
   (forall now0 sweep0 b0 ttl0,
      result (geoCache.get t key
                (world (geoCache.set now nowSweep key b ttl
                          (world (geoCache.set now0 sweep0 key b0 ttl0 w))))) =
      result (geoCache.get t key w'))) /\
  (result (geoCache.get t key w') = (b, true) \/
   result (geoCache.get t key w') = (nil_slice, false)) /\
  (now + ttl < t -> result (geoCache.get t key w') = (nil_slice, false)) /\
  (ttl < 0 -> now <= t -> result (geoCache.get t key w') = (nil_slice, false)).
Proof.
  intros w'.
  assert (Hlate : now + ttl < t ->
                  result (geoCache.get t key w') = (nil_slice, false)).
  { intros Hlt. unfold w'. rewrite get_result, set_entries_own.
    destruct ((Z.rem (wrap_int (geoCacheSetCount w + 1)) 50 =? 0)
              && (now + ttl <? nowSweep)); [reflexivity|].
    unfold Time_After. cbn [expiresAt].
    destruct (Z.ltb_spec (now + ttl) t); [reflexivity|lia]. }
  split; [|split; [|split]].
  - intros Hsweep.
    assert (Hget : forall w0,
               result (geoCache.get t key
                         (world (geoCache.set now nowSweep key b ttl w0))) =
               if t <=? now + ttl then (b, true) else (nil_slice, false)).
    { intros w0. rewrite get_after_set by exact Hsweep. unfold Time_After.
      destruct (Z.ltb_spec (now + ttl) t), (Z.leb_spec t (now + ttl));
        try reflexivity; lia. }
    split; [apply Hget|].
    intros now0 sweep0 b0 ttl0. unfold w'. rewrite !Hget. reflexivity.
  - unfold w'. rewrite get_result, set_entries_own.
    destruct ((Z.rem (wrap_int (geoCacheSetCount w + 1)) 50 =? 0)
              && (now + ttl <? nowSweep)); [right; reflexivity|].
    cbn [expiresAt body].
    destruct (Time_After t (now + ttl)); [right|left]; reflexivity.
  - exact Hlate.
  - intros Hneg Ht. apply Hlate. lia.
Qed.

(** The fiftieth store, with a time to live of minus five: its sweep
    runs after the store and removes the entry at once. *)
Lemma store_then_lookup_witness :
  let w := {| geoCache_ := {| entries := ∅ |}; geoCacheSetCount := 49 |} in
  result (geoCache.get 1005 "k"
            (world (geoCache.set 1000 1001 "k" (Some [Byte.x7b]) 5 initWorld)))
  = (Some [Byte.x7b], true) /\
  result (geoCache.get 1002 "k"
            (world (geoCache.set 1000 1001 "k" (Some [Byte.x7b]) (-5) w)))
  = (nil_slice, false).
Proof.
  intros w. split.
  - exact (proj1 (proj1 (store_then_lookup initWorld 1000 1001 1005 "k"
                           (Some [Byte.x7b]) 5) ltac:(lia))).
  - apply (proj2 (proj2 (proj2 (store_then_lookup w 1000 1001 1002 "k"
                                  (Some [Byte.x7b]) (-5))))); lia.
Defined.

(** X2. A store never changes what a later lookup of another key
    returns, whether or not the store sweeps: the entries a sweep removes
    are entries no lookup at or after the sweep would return. *)
Theorem store_frames_other_lookups (w : World) (now nowSweep t : Time)
    (key k' : string) (b : ByteSlice) (ttl : Duration) :
  k' <> key ->
  nowSweep <= t ->
  result (geoCache.get t k' (world (geoCache.set now nowSweep key b ttl w))) =
  result (geoCache.get t k' w).
Proof.
  intros Hne Ht. rewrite !get_result, set_entries_other by exact Hne.
  destruct (Z.rem (wrap_int (geoCacheSetCount w + 1)) 50 =? 0); [|reflexivity].
  destruct (entries (geoCache_ w) !! k') as [e|]; [|reflexivity].
  unfold Time_After.
  destruct (Z.ltb_spec (expiresAt e) nowSweep) as [Hexp|Hlive]; [|reflexivity].
  destruct (Z.ltb_spec (expiresAt e) t); [reflexivity|lia].
Qed.

(** Forty-nine stores bring the counter to 49, so that the next store
    sweeps. *)
Lemma store_frames_other_lookups_witness :
  let w := installed 5 "old" (Some [Byte.x5b]) 1
             {| geoCache_ := {| entries := ∅ |}; geoCacheSetCount := 48 |} in
  result (geoCache.get 1002 "old"
            (world (geoCache.set 1000 1001 "new" (Some [Byte.x7b]) 5 w))) =
  result (geoCache.get 1002 "old" w).
Proof.
  intros w.
  apply (store_frames_other_lookups w 1000 1001 1002 "new" "old"
           (Some [Byte.x7b]) 5); [discriminate | lia].
Defined.

(** X3. A store adds no key but its own and never alters the entry of
    another key: afterwards every other key holds the entry it held
    before, or nothing, and it holds nothing only if it held nothing
    before or its entry had expired when the store swept. *)
Theorem store_touches_own_key_only (w : World) (now nowSweep : Time)
    (key k' : string) (b : ByteSlice) (ttl : Duration) :
  k' <> key ->
  let after := entries (geoCache_ (world (geoCache.set now nowSweep key b ttl w))) in
  (forall e', after !! k' = Some e' -> entries (geoCache_ w) !! k' = Some e') /\
  (forall e, entries (geoCache_ w) !! k' = Some e -> after !! k' = None ->
     expiresAt e < nowSweep /\
     Z.rem (wrap_int (geoCacheSetCount w + 1)) 50 = 0).
Proof.
  intros Hne after. unfold after. rewrite set_entries_other by exact Hne.
  destruct (Z.rem (wrap_int (geoCacheSetCount w + 1)) 50 =? 0) eqn:Hrem.
  - apply Z.eqb_eq in Hrem. split.
    + intros e'. destruct (entries (geoCache_ w) !! k') as [e|]; [|discriminate].
      destruct (Time_After nowSweep (expiresAt e)); [discriminate|auto].
    + intros e ->. unfold Time_After.
      destruct (Z.ltb_spec (expiresAt e) nowSweep); [auto|discriminate].
  - split; [auto|]. intros e -> Hnone. discriminate Hnone.
Qed.

Lemma store_touches_own_key_only_witness :
  let w := installed 5 "old" (Some [Byte.x5b]) 1
             {| geoCache_ := {| entries := ∅ |}; geoCacheSetCount := 48 |} in
  expiresAt {| body := Some [Byte.x5b]; expiresAt := 6 |} < 1001 /\
  Z.rem (wrap_int (geoCacheSetCount w + 1)) 50 = 0.
Proof.
  intros w.
  apply (proj2 (store_touches_own_key_only w 1000 1001 "new" "old"
                  (Some [Byte.x7b]) 5 ltac:(discriminate))
           {| body := Some [Byte.x5b]; expiresAt := 6 |}).
  - unfold w, installed. cbn [entries geoCache_]. rewrite lookup_insert_eq. reflexivity.
  - vm_compute. reflexivity.
Defined.

Lemma sweep_sweep (now later : Time) (m : gmap string geoCacheEntry) :
  now <= later ->
  geoCache.sweep later (geoCache.sweep now m) = geoCache.sweep later m.
Proof.
  intros Hle. apply map_eq. intros k. rewrite !sweep_lookup.
  destruct (m !! k) as [e|]; [|reflexivity].
  unfold Time_After.
  destruct (Z.ltb_spec (expiresAt e) now) as [Hexp|Hlive].
  - destruct (Z.ltb_spec (expiresAt e) later); [reflexivity|lia].
  - reflexivity.
Qed.

(** X4. After a sweep every entry left is one that was there before and
    that the sweep's clock reading is not after; sweeping again at the
    same reading changes nothing, and a sweep followed by a later sweep
    leaves what the later sweep alone would leave. *)
Theorem sweep_leaves_live_entries (now : Time) (w : World) :
  let w' := world (geoCache.cleanupExpired now w) in
  (forall k e, entries (geoCache_ w') !! k = Some e ->
     now <= expiresAt e /\ entries (geoCache_ w) !! k = Some e) /\
  world (geoCache.cleanupExpired now w') = w' /\
  (forall later, now <= later ->
     world (geoCache.cleanupExpired later w') =
     world (geoCache.cleanupExpired later w)).
Proof.
  intros w'. unfold w'. rewrite !cleanupExpired_unfold. unfold world.
  cbn [fst snd entries geoCache_ geoCacheSetCount].
  split; [|split].
  - intros k e. rewrite sweep_lookup.
    destruct (entries (geoCache_ w) !! k) as [e0|]; [|discriminate].
    unfold Time_After.
    destruct (Z.ltb_spec (expiresAt e0) now); [discriminate|].
    intros [= <-]. auto.
  - rewrite sweep_sweep by lia. reflexivity.
  - intros later Hle. rewrite !cleanupExpired_unfold.
    cbn [fst snd entries geoCache_ geoCacheSetCount].
    rewrite sweep_sweep by exact Hle. reflexivity.
Qed.

Lemma sweep_leaves_live_entries_witness :
  let w := installed 1000 "a" (Some [Byte.x7b]) 5
             (installed 5 "old" (Some [Byte.x5b]) 1 initWorld) in
  1001 <= expiresAt {| body := Some [Byte.x7b]; expiresAt := 1005 |} /\
  entries (geoCache_ w) !! "a" = Some {| body := Some [Byte.x7b]; expiresAt := 1005 |}.
Proof.
  intros w.
  apply (proj1 (sweep_leaves_live_entries 1001 w) "a").
  vm_compute. reflexivity.
Defined.

(** X5. A sweep is invisible to lookups: at any instant from the sweep's
    clock reading on, every key is answered after the sweep as it would
    have been answered without it. *)
Theorem sweep_invisible_to_lookups (now t : Time) (k : string) (w : World) :
  now <= t ->
  result (geoCache.get t k (world (geoCache.cleanupExpired now w))) =
  result (geoCache.get t k w).
Proof.
  intros Ht. rewrite !get_result, cleanupExpired_unfold. unfold world.
  cbn [fst snd entries geoCache_]. rewrite sweep_lookup.
  destruct (entries (geoCache_ w) !! k) as [e|]; [|reflexivity].
  unfold Time_After.
  destruct (Z.ltb_spec (expiresAt e) now) as [Hexp|Hlive]; [|reflexivity].
  destruct (Z.ltb_spec (expiresAt e) t); [reflexivity|lia].
Qed.

Lemma sweep_invisible_to_lookups_witness :
  let w := installed 1000 "a" (Some [Byte.x7b]) 5
             (installed 5 "old" (Some [Byte.x5b]) 1 initWorld) in
  result (geoCache.get 1002 "old" (world (geoCache.cleanupExpired 1001 w))) =
  result (geoCache.get 1002 "old" w).
Proof.
  intros w. apply (sweep_invisible_to_lookups 1001 1002 "old" w). lia.
Defined.

(** * Further properties of the proxy *)

Lemma nominatimUserAgent_not_empty (os_Getenv : string -> string) :
  nominatimUserAgent os_Getenv <> "".
Proof.
  unfold nominatimUserAgent.
  destruct (String.eqb (strings_TrimSpace (os_Getenv "NOMINATIM_USER_AGENT")) "")
    eqn:Hua; cbn [negb].
  - discriminate.
  - apply String.eqb_neq. exact Hua.
Qed.

Section ProxyMore.
Variable os_Getenv : string -> string.
Variable url_Parse : string -> option error.
Variable geoHTTPClient_Do : Request -> Response + error.
Variables tGet tSet tSweep : Time.
Variable nominatimURL : string.
Variable w : World.

Local Abbreviation proxy :=
  (nominatimProxy os_Getenv url_Parse geoHTTPClient_Do tGet tSet tSweep
     nominatimURL newResponseWriter w).
Local Abbreviation req := (upstreamRequest os_Getenv nominatimURL).
Local Abbreviation jsonType := "application/json; charset=utf-8".

(** The run of the proxy on a cache hit. *)
Lemma proxy_hit_run :
  (result (geoCache.get tGet nominatimURL w)).2 = true ->
  proxy =
  (rw_Write (bytes_of (result (geoCache.get tGet nominatimURL w)).1)
     (rw_Header_Set "Content-Type" jsonType newResponseWriter), w, []).
Proof.
  intros Hhit. unfold nominatimProxy, bind at 1.
  rewrite get_unfold in *. unfold result in *. cbn [fst snd] in *.
  rewrite Hhit. reflexivity.
Qed.

(** X6. A lookup that finds a live entry is answered from the cache
    alone: status 200, the cached bytes as the body, the JSON content
    type, no request upstream, no store, no sweep. *)
Theorem proxy_hit_served_from_cache (e : geoCacheEntry) :
  entries (geoCache_ w) !! nominatimURL = Some e ->
  tGet <= expiresAt e ->
  rw_Code (result proxy) = Some 200 /\
  rw_Body (result proxy) = bytes_of (body e) /\
  rw_Header (result proxy) !! "Content-Type" = Some jsonType /\
  trace proxy = [] /\
  world proxy = w.
Proof.
  intros He Hlive.
  assert (Hget : result (geoCache.get tGet nominatimURL w) = (body e, true)).
  { rewrite get_result, He. unfold Time_After.
    destruct (Z.ltb_spec (expiresAt e) tGet); [lia|reflexivity]. }
  rewrite proxy_hit_run by (rewrite Hget; reflexivity).
  rewrite Hget. repeat split.
Qed.

(** X7. When reading the upstream body fails, the proxy answers 500 with
    its own message, forwards none of the bytes read, stores nothing,
    and has sent exactly one request, whatever the upstream status. *)
Theorem proxy_body_read_error (resp : Response) (b : ByteSlice) (err : error) :
  (result (geoCache.get tGet nominatimURL w)).2 = false ->
  url_Parse nominatimURL = None ->
  geoHTTPClient_Do req = inl resp ->
  resp_Body resp = (b, Some err) ->
  result proxy =
    http_Error newResponseWriter "Erreur lecture réponse geo" 500 /\
  rw_Code (result proxy) = Some 500 /\
  trace proxy = [EvUpstream req] /\
  world proxy = w.
Proof.
  intros Hmiss Hparse Hdo Hbody.
  rewrite (proxy_miss _ _ _ _ _ _ _ _ Hmiss), Hparse, Hdo, Hbody.
  repeat split.
Qed.

(** The one request a run of the proxy can send. *)
Lemma proxy_upstream_only (r : Request) :
  In (EvUpstream r) (trace proxy) -> r = req.
Proof.
  intros Hin.
  destruct ((result (geoCache.get tGet nominatimURL w)).2) eqn:Hget.
  - rewrite (proxy_hit_run Hget) in Hin. destruct Hin.
  - rewrite (proxy_miss _ _ _ _ _ _ _ _ Hget) in Hin.
    destruct (url_Parse nominatimURL) as [err|]; [destruct Hin|].
    destruct (geoHTTPClient_Do req) as [resp|err].
    2:{ destruct Hin as [Hin|[]]. congruence. }
    destruct (resp_Body resp) as [b [err|]].
    { destruct Hin as [Hin|[]]. congruence. }
    cbv zeta in Hin.
    destruct ((resp_StatusCode resp =? StatusOK) && (0 <? len b)).
    + destruct Hin as [Hin|Hin]; [congruence|].
      unfold trace in Hin. cbn [snd] in Hin. rewrite set_unfold in Hin.
      destruct (Z.rem (wrap_int (geoCacheSetCount w + 1)) 50 =? 0).
      * destruct Hin as [Hin|[]]. discriminate Hin.
      * destruct Hin.
    + destruct Hin as [Hin|[]]. congruence.
Qed.

(** X8. Every request the proxy sends upstream is a GET of the URL it
    was given, without a body, with Accept application/json,
    Accept-Language fr, and a User-Agent that is never empty: the
    NOMINATIM_USER_AGENT setting trimmed of the white space around it,
    or the built-in one when nothing is left of the setting. *)
Theorem proxy_upstream_request_shape (r : Request) :
  In (EvUpstream r) (trace proxy) ->
  req_Method r = "GET" /\
  req_URL r = nominatimURL /\
  req_Body r = nil_slice /\
  (exists ua, req_Header r !! "User-Agent" = Some ua /\ ua <> "" /\
              ua = nominatimUserAgent os_Getenv /\
              (strings_TrimSpace (os_Getenv "NOMINATIM_USER_AGENT") = "" ->
               ua = "Cacao-App/1.0 (+https://example.com; contact@example.com)") /\
              (strings_TrimSpace (os_Getenv "NOMINATIM_USER_AGENT") <> "" ->
               ua = strings_TrimSpace (os_Getenv "NOMINATIM_USER_AGENT"))) /\
  req_Header r !! "Accept" = Some "application/json" /\
  req_Header r !! "Accept-Language" = Some "fr".
Proof.
  intros Hin. apply proxy_upstream_only in Hin.
  subst r. unfold upstreamRequest, Request_Header_Set, Header_Set.
  cbn [req_Method req_URL req_Body req_Header].
  split; [reflexivity|]. split; [reflexivity|]. split; [reflexivity|].
  split; [|split].
  - exists (nominatimUserAgent os_Getenv). split; [|split; [|split; [|split]]].
    + rewrite lookup_insert_ne by discriminate.
      rewrite lookup_insert_ne by discriminate. apply lookup_insert_eq.
    + apply nominatimUserAgent_not_empty.
    + reflexivity.
    + intros Hblank. unfold nominatimUserAgent. rewrite Hblank. reflexivity.
    + intros Hset. unfold nominatimUserAgent.
      apply String.eqb_neq in Hset. rewrite Hset. reflexivity.
  - rewrite lookup_insert_ne by discriminate. apply lookup_insert_eq.
  - apply lookup_insert_eq.
Qed.
End ProxyMore.

(** X9. The cache key is the URL: once a run of the proxy has stored an
    answer, a second run for the same URL, at any instant up to 24 hours
    after the store, sends nothing upstream, changes nothing, and
    answers 200 with the stored bytes, whatever the upstream would do
    then. *)
Theorem proxy_second_call_hits_cache
    (os_Getenv : string -> string) (url_Parse url_Parse' : string -> option error)
    (Do Do' : Request -> Response + error)
    (tGet tSet tSweep tGet' tSet' tSweep' : Time) (url : string) (w : World)
    (resp : Response) (b : ByteSlice) :
  (result (geoCache.get tGet url w)).2 = false ->
  url_Parse url = None ->
  Do (upstreamRequest os_Getenv url) = inl resp ->
  resp_Body resp = (b, None) ->
  resp_StatusCode resp = 200 -> 0 < len b ->
  tSweep <= tSet + 24 * Hour ->
  tGet' <= tSet + 24 * Hour ->
  let first := nominatimProxy os_Getenv url_Parse Do tGet tSet tSweep url
                 newResponseWriter w in
  let second := nominatimProxy os_Getenv url_Parse' Do' tGet' tSet' tSweep' url
                  newResponseWriter (world first) in
  trace second = [] /\
  world second = world first /\
  rw_Code (result second) = Some 200 /\
  rw_Body (result second) = rw_Body (result first).
Proof.
  intros Hmiss Hparse Hdo Hbody Hcode Hlen Hsweep Hget' first second.
  assert (Hfirst : world first =
                   world (geoCache.set tSet tSweep url b (24 * Hour) w) /\
                   rw_Body (result first) = bytes_of b).
  { unfold first. rewrite (proxy_miss _ _ _ _ _ _ _ _ Hmiss), Hparse, Hdo, Hbody.
    cbv zeta.
    assert (Hc : (resp_StatusCode resp =? StatusOK) && (0 <? len b) = true).
    { apply cacheable_spec. auto. }
    rewrite Hc. split; reflexivity. }
  destruct Hfirst as [Hw Hb].
  assert (Hhit : result (geoCache.get tGet' url (world first)) = (b, true)).
  { rewrite Hw, get_after_set by exact Hsweep. unfold Time_After.
    destruct (Z.ltb_spec (tSet + 24 * Hour) tGet'); [lia|reflexivity]. }
  unfold second. rewrite proxy_hit_run by (rewrite Hhit; reflexivity).
  rewrite Hhit, Hb. repeat split.
Qed.

Lemma proxy_hit_served_from_cache_witness :
  let w := installed 1000 "https://x/search?q=a" (Some [Byte.x7b; Byte.x7d])
             (24 * Hour) initWorld in
  rw_Code (result (nominatimProxy noGetenv sampleParse sampleGeoDo 2000 2001
                     2002 "https://x/search?q=a" newResponseWriter w))
  = Some 200.
Proof.
  intros w.
  apply (proxy_hit_served_from_cache noGetenv sampleParse sampleGeoDo 2000 2001
           2002 "https://x/search?q=a" w
           {| body := Some [Byte.x7b; Byte.x7d];
              expiresAt := 1000 + 24 * Hour |}).
  - unfold w, installed. cbn [entries geoCache_]. apply lookup_insert_eq.
  - vm_compute. discriminate.
Defined.

(** An upstream whose body breaks off after two bytes. *)
Lemma proxy_body_read_error_witness :
  rw_Code (result (nominatimProxy noGetenv sampleParse
                     (fun _ => inl {| resp_Status := "200 OK";
                                      resp_StatusCode := 200;
                                      resp_Body := (Some [Byte.x7b; Byte.x7d],
                                                    Some (libError "unexpected EOF")) |})
                     1000 1001 1002 "https://x/search?q=a" newResponseWriter
                     initWorld))
  = Some 500.
Proof.
  apply (proxy_body_read_error noGetenv sampleParse
           (fun _ => inl {| resp_Status := "200 OK"; resp_StatusCode := 200;
                            resp_Body := (Some [Byte.x7b; Byte.x7d],
                                          Some (libError "unexpected EOF")) |})
           1000 1001 1002 "https://x/search?q=a" initWorld
           _ (Some [Byte.x7b; Byte.x7d]) (libError "unexpected EOF")
           eq_refl eq_refl eq_refl eq_refl).
Defined.

(** With a user agent set to a no-break space and a space, the request
    carries the built-in one. *)
Lemma proxy_upstream_request_shape_witness :
  let r := upstreamRequest blankGetenv "https://x/search?q=a" in
  req_Method r = "GET" /\
  req_URL r = "https://x/search?q=a" /\
  req_Header r !! "User-Agent" =
    Some "Cacao-App/1.0 (+https://example.com; contact@example.com)".
Proof.
  intros r.
  assert (Hin : In (EvUpstream r)
                  (trace (nominatimProxy blankGetenv sampleParse sampleGeoDo 1000
                            1001 1002 "https://x/search?q=a" newResponseWriter
                            initWorld))).
  { left. reflexivity. }
  pose proof (proxy_upstream_request_shape blankGetenv sampleParse sampleGeoDo
                1000 1001 1002 "https://x/search?q=a" initWorld r Hin)
    as (Hm & Hu & _ & (ua & Hua & _ & _ & Hblank & _) & _).
  split; [exact Hm|]. split; [exact Hu|].
  rewrite Hua. f_equal. apply Hblank. reflexivity.
Defined.

Lemma proxy_second_call_hits_cache_witness :
  let first := nominatimProxy noGetenv sampleParse sampleGeoDo 1000 1001 1002
                 "https://x/search?q=a" newResponseWriter initWorld in
  let second := nominatimProxy noGetenv sampleParse
                  (fun _ => inr (libError "dial tcp: connection refused"))
                  2000 2001 2002 "https://x/search?q=a" newResponseWriter
                  (world first) in
  trace second = [] /\ world second = world first /\
  rw_Code (result second) = Some 200 /\
  rw_Body (result second) = rw_Body (result first).
Proof.
  assert (Hlen : 0 < len (Some [Byte.x7b; Byte.x7d])) by (cbn; lia).
  assert (Hs : 1002 <= 1001 + 24 * Hour) by (vm_compute; discriminate).
  assert (Hg : 2000 <= 1001 + 24 * Hour) by (vm_compute; discriminate).
  exact (proxy_second_call_hits_cache noGetenv sampleParse sampleParse
           sampleGeoDo (fun _ => inr (libError "dial tcp: connection refused"))
           1000 1001 1002 2000 2001 2002 "https://x/search?q=a" initWorld
           {| resp_Status := "200 OK"; resp_StatusCode := 200;
              resp_Body := (Some [Byte.x7b; Byte.x7d], None) |}
           (Some [Byte.x7b; Byte.x7d])
           eq_refl eq_refl eq_refl eq_refl eq_refl Hlen Hs Hg).
Defined.

(** * Further properties of the image pipeline *)

Lemma append_not_empty (s t : string) : t <> "" -> s +:+ t <> "".
Proof.
  intros Ht. destruct s as [|c s]; [exact Ht|discriminate].
Qed.

Section IngestMore.
Variable Image : Type.
Variable Bounds : Image -> Rectangle.
Variable os_Getenv : string -> string.
Variable image_Decode : list Byte.byte -> (Image * string) + error.
Variable resize_Resize : Z -> Z -> Image -> InterpolationFunction -> Image.
Variable jpeg_Encode : Image -> Z -> list Byte.byte + error.
Variable url_Parse : string -> option error.
Variable uploadHTTPClient_Do : Request -> Response + error.
Variable nowUnix : Z.
Variable file : list Byte.byte.
Variable header : option FileHeader.
Variable tastingID : string.
Variable w : World.

Local Abbreviation Ev := (IngestEvent Image).
Local Abbreviation ingest :=
  (processAndUploadImage Image Bounds os_Getenv image_Decode resize_Resize
     jpeg_Encode url_Parse uploadHTTPClient_Do nowUnix file header tastingID w).
Local Abbreviation enc := (encoded Image Bounds resize_Resize).
Local Abbreviation upReq := (uploadRequest os_Getenv nowUnix tastingID).
Local Abbreviation logToEncode := (upToEncode Image Bounds resize_Resize file).
Local Abbreviation run := (ingest_run Image Bounds os_Getenv image_Decode
  resize_Resize jpeg_Encode url_Parse uploadHTTPClient_Do nowUnix file header
  tastingID w).

Local Abbreviation noUploadYet :=
  (upload_not_before_encode Image Bounds os_Getenv image_Decode resize_Resize
     jpeg_Encode url_Parse uploadHTTPClient_Do nowUnix file tastingID).
Local Abbreviation attempted :=
  (decode_attempted Image Bounds os_Getenv image_Decode resize_Resize
     jpeg_Encode url_Parse uploadHTTPClient_Do nowUnix file header tastingID w).

Lemma no_upload_before_encode (img : Image) :
  List.filter (isUpload Image) (logToEncode img) = [].
Proof.
  unfold upToEncode. destruct (MaxImageWidth <? Dx (Bounds img)); reflexivity.
Qed.

(** X10. Whatever happens, a run returns either an error with the empty
    URL or no error with the public URL, which is never empty; it leaves
    the package state as it was; and it sends at most one upload. *)
Theorem ingest_url_xor_error :
  ((result ingest).1 = "" /\ (result ingest).2 <> None \/
   (result ingest).2 = None /\
   (result ingest).1 = publicURL os_Getenv nowUnix tastingID /\
   (result ingest).1 <> "") /\
  world ingest = w /\
  (List.length (List.filter (isUpload Image) (trace ingest)) <= 1)%nat.
Proof.
  rewrite run.
  destruct (configured os_Getenv); cbn [negb];
    [|split; [left; split; [reflexivity|discriminate]|split; [reflexivity|cbn; lia]]].
  destruct (oversize header);
    [split; [left; split; [reflexivity|discriminate]|split; [reflexivity|cbn; lia]]|].
  destruct (image_Decode file) as [[img format]|e];
    [|split; [left; split; [reflexivity|discriminate]|split; [reflexivity|cbn; lia]]].
  assert (Hpre : (List.length (List.filter (isUpload Image) (logToEncode img)) <= 1)%nat).
  { rewrite no_upload_before_encode. cbn. lia. }
  assert (Hpost : forall r,
             (List.length (List.filter (isUpload Image)
                             (logToEncode img ++ [EvUpload r])) <= 1)%nat).
  { intros r. rewrite List.filter_app, no_upload_before_encode. cbn. lia. }
  destruct (jpeg_Encode _ JpegQuality) as [buf|e];
    [|split; [left; split; [reflexivity|discriminate]|split; [reflexivity|exact Hpre]]].
  destruct (url_Parse _) as [e|];
    [split; [left; split; [reflexivity|discriminate]|split; [reflexivity|exact Hpre]]|].
  destruct (uploadHTTPClient_Do _) as [resp|e];
    [|split; [left; split; [reflexivity|discriminate]|split; [reflexivity|apply Hpost]]].
  split; [|split; [reflexivity|apply Hpost]].
  unfold result, afterUpload. cbn [fst snd].
  destruct ((resp_StatusCode resp <? 200) || (300 <=? resp_StatusCode resp)).
  - left. split; [reflexivity|discriminate].
  - right. cbn [fst snd]. split; [reflexivity|]. split; [reflexivity|].
    unfold publicURL. apply append_not_empty, append_not_empty.
    unfold fileName. discriminate.
Qed.

(** X11. The decoder is called exactly when both storage settings are
    present (the URL not empty once its final slashes are trimmed, the
    key not empty once the white space around it is trimmed) and the
    header, if there is one, declares at most 10485760 bytes: a declared
    size of exactly 10 MiB passes, and so does a call without a
    header. *)
Theorem decode_attempted_iff :
  In (EvDecode file) (trace ingest) <->
  strings_TrimRight (os_Getenv "SUPABASE_URL") "/" <> "" /\
  strings_TrimSpace (os_Getenv "SUPABASE_SERVICE_ROLE_KEY") <> "" /\
  (forall h, header = Some h -> fh_Size h <= 10485760).
Proof.
  assert (Hov : oversize header = false <->
                forall h, header = Some h -> fh_Size h <= 10485760).
  { unfold oversize. destruct header as [h0|].
    - change MaxUploadSize with 10485760. rewrite Z.ltb_ge. split.
      + intros Hle h [= <-]. exact Hle.
      + intros Hall. apply Hall. reflexivity.
    - split; [discriminate|reflexivity]. }
  rewrite <- Hov. split.
  - intros Hin. destruct (attempted Hin) as [Hcfg Hno].
    apply configured_spec in Hcfg. tauto.
  - intros (Hurl & Hkey & Hno).
    assert (Hcfg : configured os_Getenv = true)
      by (apply configured_spec; auto).
    rewrite run, Hcfg, Hno. cbn [negb].
    destruct (image_Decode file) as [[img format]|e]; [|left; reflexivity].
    destruct (jpeg_Encode _ JpegQuality) as [buf|e]; [|left; reflexivity].
    destruct (url_Parse _) as [e|]; [left; reflexivity|].
    destruct (uploadHTTPClient_Do _) as [resp|e]; left; reflexivity.
Qed.

(** What must have happened for an upload to be in the log. *)
Lemma upload_sent (r : Request) :
  In (EvUpload r) (trace ingest) ->
  exists img format buf,
    configured os_Getenv = true /\ oversize header = false /\
    image_Decode file = inl (img, format) /\
    jpeg_Encode (enc img) JpegQuality = inl buf /\
    url_Parse (uploadURL os_Getenv nowUnix tastingID) = None /\
    r = upReq buf.
Proof.
  rewrite run.
  destruct (configured os_Getenv); cbn [negb]; [|intros []].
  destruct (oversize header); [intros []|].
  destruct (image_Decode file) as [[img format]|e];
    [|intros [Hin|[]]; discriminate Hin].
  destruct (jpeg_Encode (enc img) JpegQuality) as [buf|e] eqn:Hbuf;
    [|intros Hin; destruct (noUploadYet img r Hin)].
  destruct (url_Parse _) as [e|] eqn:Hurl;
    [intros Hin; destruct (noUploadYet img r Hin)|].
  assert (Hlast : In (EvUpload r) (logToEncode img ++ [EvUpload (upReq buf)]) ->
                  r = upReq buf).
  { intros Hin. apply in_app_or in Hin.
    destruct Hin as [Hin|[Hin|[]]];
      [destruct (noUploadYet img r Hin)|congruence]. }
  destruct (uploadHTTPClient_Do _) as [resp|e]; intros Hin;
    apply Hlast in Hin; subst r; exists img, format, buf;
    repeat split; exact Hbuf.
Qed.

(** X12. An upload is sent only after the input was decoded, the image
    encoded and the storage URL parsed, and it is then the POST of the
    encoder's bytes to the object URL of the file name. *)
Theorem upload_only_after_encode (r : Request) :
  In (EvUpload r) (trace ingest) ->
  exists img format buf,
    image_Decode file = inl (img, format) /\
    jpeg_Encode (enc img) 80 = inl buf /\
    url_Parse (uploadURL os_Getenv nowUnix tastingID) = None /\
    r = upReq buf /\
    req_Method r = "POST" /\
    req_URL r = supabaseURL os_Getenv +:+ "/storage/v1/object/photos/"
                +:+ fileName nowUnix tastingID /\
    req_Body r = Some buf.
Proof.
  intros Hin.
  destruct (upload_sent r Hin)
    as (img & format & buf & _ & _ & Hdec & Hbuf & Hurl & ->).
  exists img, format, buf. repeat split; assumption.
Qed.

(** X13. When the decoder or the encoder fails, the run stops there: the
    error returned is the library's, prefixed with the step's name, and
    nothing later happens (no encoding after a decode failure, no
    upload after either). *)
Theorem codec_failure_stops_run :
  In (EvDecode file) (trace ingest) ->
  (forall e, image_Decode file = inr e ->
     result ingest = ("", Some (wrapError "decode image: " e)) /\
     error_Error (wrapError "decode image: " e) = "decode image: " +:+ error_Error e /\
     trace ingest = [EvDecode file]) /\
  (forall img format e,
     image_Decode file = inl (img, format) ->
     jpeg_Encode (enc img) 80 = inr e ->
     result ingest = ("", Some (wrapError "encode jpeg: " e)) /\
     trace ingest = logToEncode img /\
     List.filter (isUpload Image) (trace ingest) = []).
Proof.
  intros Hin. destruct (attempted Hin) as [Hcfg Hov].
  rewrite run, Hcfg, Hov. cbn [negb]. split.
  - intros e ->. repeat split.
  - intros img format e -> He. change 80 with JpegQuality in He. rewrite He.
    unfold trace. cbn [snd]. rewrite no_upload_before_encode. repeat split.
Qed.

(** X14. When the storage endpoint answers an upload with a status from
    200 to 299, the run returns no error and the public URL of the
    object just uploaded: same base and same file name as the upload
    URL, the name being tasting-<id>-<seconds>.jpg whatever the format
    of the input. *)
Theorem upload_accepted (r : Request) (resp : Response) :
  In (EvUpload r) (trace ingest) ->
  uploadHTTPClient_Do r = inl resp ->
  200 <= resp_StatusCode resp < 300 ->
  let name := "tasting-" +:+ tastingID +:+ "-" +:+ itoa nowUnix +:+ ".jpg" in
  result ingest =
    (supabaseURL os_Getenv +:+ "/storage/v1/object/public/photos/" +:+ name,
     None) /\
  req_URL r = supabaseURL os_Getenv +:+ "/storage/v1/object/photos/" +:+ name.
Proof.
  intros Hin Hdo Hcode name.
  destruct (upload_sent r Hin)
    as (img & format & buf & Hcfg & Hov & Hdec & Hbuf & Hurl & Hr).
  split; [|rewrite Hr; reflexivity].
  rewrite run, Hcfg, Hov, Hdec, Hbuf, Hurl. cbn [negb]. rewrite <- Hr, Hdo.
  unfold result, afterUpload. cbn [fst snd].
  destruct (Z.ltb_spec (resp_StatusCode resp) 200); [lia|].
  destruct (Z.leb_spec 300 (resp_StatusCode resp)); [lia|].
  reflexivity.
Qed.
End IngestMore.

Lemma list_ascii_of_string_app (s t : string) :
  list_ascii_of_string (s +:+ t) =
  list_ascii_of_string s ++ list_ascii_of_string t.
Proof.
  induction s as [|c s IH]; [reflexivity|].
  simpl. f_equal. exact IH.
Qed.

Lemma dropWhile_head {A : Type} (p : A -> bool) (l : list A) (x : A) (r : list A) :
  dropWhile p l = x :: r -> p x = false.
Proof.
  induction l as [|y l IH]; [discriminate|].
  cbn [dropWhile]. destruct (p y) eqn:Hy; [exact IH|].
  intros [= <- _]. exact Hy.
Qed.

Lemma dropWhileEnd_app {A : Type} (p : A -> bool) (l t : list A) :
  forallb p t = true -> dropWhileEnd p (l ++ t) = dropWhileEnd p l.
Proof.
  induction t as [|c t IH] using rev_ind; intros Hall.
  - rewrite app_nil_r. reflexivity.
  - rewrite forallb_app in Hall. apply andb_true_iff in Hall as [Ht Hc].
    cbn [forallb] in Hc. rewrite andb_true_r in Hc.
    rewrite app_assoc. unfold dropWhileEnd at 1.
    rewrite rev_app_distr. cbn [rev app dropWhile]. rewrite Hc.
    apply IH. exact Ht.
Qed.

Lemma dropWhileEnd_last {A : Type} (p : A -> bool) (l r : list A) (x : A) :
  dropWhileEnd p l = r ++ [x] -> p x = false.
Proof.
  unfold dropWhileEnd. intros H.
  apply (f_equal (@rev A)) in H.
  rewrite rev_involutive, rev_app_distr in H. cbn [rev app] in H.
  exact (dropWhile_head p _ _ _ H).
Qed.

(** X15. Slashes at the end of SUPABASE_URL do not matter: the trimmed
    base never ends with a slash, and two environments that differ only
    by slashes added at the end of SUPABASE_URL give the same run (same
    result, same requests). *)
Theorem trailing_slashes_ignored
    (Image : Type) (Bounds : Image -> Rectangle)
    (getenv getenv' : string -> string)
    (image_Decode : list Byte.byte -> (Image * string) + error)
    (resize_Resize : Z -> Z -> Image -> InterpolationFunction -> Image)
    (jpeg_Encode : Image -> Z -> list Byte.byte + error)
    (url_Parse : string -> option error)
    (Do : Request -> Response + error)
    (nowUnix : Z) (file : list Byte.byte) (header : option FileHeader)
    (tastingID : string) (w : World) (slashes : string) :
  forallb (Ascii.eqb "/") (list_ascii_of_string slashes) = true ->
  getenv' "SUPABASE_URL" = getenv "SUPABASE_URL" +:+ slashes ->
  getenv' "SUPABASE_SERVICE_ROLE_KEY" = getenv "SUPABASE_SERVICE_ROLE_KEY" ->
  (forall s, supabaseURL getenv <> s +:+ "/") /\
  processAndUploadImage Image Bounds getenv' image_Decode resize_Resize
    jpeg_Encode url_Parse Do nowUnix file header tastingID w =
  processAndUploadImage Image Bounds getenv image_Decode resize_Resize
    jpeg_Encode url_Parse Do nowUnix file header tastingID w.
Proof.
  intros Hsl Hurl Hkey. split.
  - intros s Heq. unfold supabaseURL, strings_TrimRight in Heq.
    apply (f_equal list_ascii_of_string) in Heq.
    rewrite list_ascii_of_string_of_list_ascii, list_ascii_of_string_app in Heq.
    apply dropWhileEnd_last in Heq. discriminate Heq.
  - assert (Htrim : strings_TrimRight (getenv' "SUPABASE_URL") "/" =
                    strings_TrimRight (getenv "SUPABASE_URL") "/").
    { unfold strings_TrimRight. rewrite Hurl, list_ascii_of_string_app.
      rewrite dropWhileEnd_app; [reflexivity|].
      assert (Hext : forall l, forallb (inCutset "/") l =
                               forallb (Ascii.eqb "/") l).
      { induction l as [|c l IH]; [reflexivity|].
        cbn [forallb]. rewrite IH. f_equal. unfold inCutset.
        cbn [list_ascii_of_string existsb]. rewrite orb_false_r.
        apply Ascii.eqb_sym. }
      rewrite Hext. exact Hsl. }
    unfold processAndUploadImage. rewrite Htrim, Hkey. reflexivity.
Qed.

Lemma trailing_slashes_ignored_witness :
  processAndUploadImage Pixmap pmBounds
    (fun k => if String.eqb k "SUPABASE_URL" then "https://proj.example.co///"
              else sampleGetenv k)
    pmDecode pmResize pmEncode sampleParse acceptingDo 1700000000 widePNG
    (Some okHeader) "42" initWorld =
  processAndUploadImage Pixmap pmBounds sampleGetenv pmDecode pmResize pmEncode
    sampleParse acceptingDo 1700000000 widePNG (Some okHeader) "42" initWorld.
Proof.
  exact (proj2 (trailing_slashes_ignored Pixmap pmBounds sampleGetenv
                  (fun k => if String.eqb k "SUPABASE_URL"
                            then "https://proj.example.co///"
                            else sampleGetenv k)
                  pmDecode pmResize pmEncode sampleParse acceptingDo 1700000000
                  widePNG (Some okHeader) "42" initWorld "//"
                  eq_refl eq_refl eq_refl)).
Defined.

(** A file of exactly 10 MiB is decoded when the settings are there, and
    is not when the key is set to a no-break space. *)
Lemma decode_attempted_iff_witness :
  let h := {| fh_Filename := "p.jpg"; fh_Size := 10485760 |} in
  In (EvDecode smallJPEG)
    (trace (processAndUploadImage Pixmap pmBounds sampleGetenv pmDecode pmResize
              pmEncode sampleParse acceptingDo 1700000000 smallJPEG
              (Some h) "42" initWorld)) /\
  ~ In (EvDecode smallJPEG)
      (trace (processAndUploadImage Pixmap pmBounds blankGetenv pmDecode pmResize
                pmEncode sampleParse acceptingDo 1700000000 smallJPEG
                (Some h) "42" initWorld)).
Proof.
  intros h. split.
  - apply (proj2 (decode_attempted_iff Pixmap pmBounds sampleGetenv pmDecode
                    pmResize pmEncode sampleParse acceptingDo 1700000000
                    smallJPEG (Some h) "42" initWorld)).
    split; [discriminate|]. split; [discriminate|].
    intros h' [= <-]. cbn. lia.
  - intros Hin.
    apply (proj1 (decode_attempted_iff Pixmap pmBounds blankGetenv pmDecode
                    pmResize pmEncode sampleParse acceptingDo 1700000000
                    smallJPEG (Some h) "42" initWorld)) in Hin.
    destruct Hin as (_ & Hkey & _). apply Hkey. reflexivity.
Defined.

Lemma upload_only_after_encode_witness :
  exists img format buf,
    pmDecode smallJPEG = inl (img, format) /\
    pmEncode (encoded Pixmap pmBounds pmResize img) 80 = inl buf /\
    sampleParse (uploadURL sampleGetenv 1700000000 "42") = None /\
    uploadRequest sampleGetenv 1700000000 "42" smallJPEG
      = uploadRequest sampleGetenv 1700000000 "42" buf.
Proof.
  assert (Hin : In (EvUpload (uploadRequest sampleGetenv 1700000000 "42" smallJPEG))
                  (trace (processAndUploadImage Pixmap pmBounds sampleGetenv
                            pmDecode pmResize pmEncode sampleParse acceptingDo
                            1700000000 smallJPEG (Some okHeader) "42" initWorld))).
  { right. right. left. reflexivity. }
  destruct (upload_only_after_encode Pixmap pmBounds sampleGetenv pmDecode
              pmResize pmEncode sampleParse acceptingDo 1700000000 smallJPEG
              (Some okHeader) "42" initWorld _ Hin)
    as (img & format & buf & H1 & H2 & H3 & H4 & _).
  exists img, format, buf. auto.
Defined.

(** A file that is no image. *)
Lemma codec_failure_stops_run_witness :
  result (processAndUploadImage Pixmap pmBounds sampleGetenv pmDecode pmResize
            pmEncode sampleParse acceptingDo 1700000000 [Byte.x00]
            (Some okHeader) "42" initWorld)
  = ("", Some (wrapError "decode image: " (libError "image: unknown format"))).
Proof.
  assert (Hin : In (EvDecode [Byte.x00])
                  (trace (processAndUploadImage Pixmap pmBounds sampleGetenv
                            pmDecode pmResize pmEncode sampleParse acceptingDo
                            1700000000 [Byte.x00] (Some okHeader) "42"
                            initWorld))).
  { left. reflexivity. }
  destruct (proj1 (codec_failure_stops_run Pixmap pmBounds sampleGetenv pmDecode
                     pmResize pmEncode sampleParse acceptingDo 1700000000
                     [Byte.x00] (Some okHeader) "42" initWorld Hin)
              (libError "image: unknown format") eq_refl) as (Hres & _).
  exact Hres.
Defined.

Lemma upload_accepted_witness :
  result (processAndUploadImage Pixmap pmBounds sampleGetenv pmDecode pmResize
            pmEncode sampleParse acceptingDo 1700000000 smallJPEG
            (Some okHeader) "42" initWorld)
  = ("https://proj.example.co/storage/v1/object/public/photos/tasting-42-1700000000.jpg",
     None).
Proof.
  assert (Hin : In (EvUpload (uploadRequest sampleGetenv 1700000000 "42" smallJPEG))
                  (trace (processAndUploadImage Pixmap pmBounds sampleGetenv
                            pmDecode pmResize pmEncode sampleParse acceptingDo
                            1700000000 smallJPEG (Some okHeader) "42" initWorld))).
  { right. right. left. reflexivity. }
  assert (Hcode : 200 <= 200 < 300) by lia.
  pose proof (upload_accepted Pixmap pmBounds sampleGetenv pmDecode pmResize
                pmEncode sampleParse acceptingDo 1700000000 smallJPEG
                (Some okHeader) "42" initWorld _
                {| resp_Status := "200 OK"; resp_StatusCode := 200;
                   resp_Body := (Some [], None) |} Hin eq_refl Hcode) as H.
  cbv zeta in H. destruct H as [Hres _].
  etransitivity; [exact Hres|]. vm_compute. reflexivity.
Defined.

(** * Properties of the form and database helpers *)

Lemma isNumChar_plain (c : ascii) :
  isNumChar c = true ->
  isSpace c = false /\ inCutset "{}" c = false /\ Ascii.eqb c "," = false /\
  (forall x, isSpace2 c x = false) /\ (forall x, isSpace2 x c = false) /\
  (forall x y, isSpace3 c x y = false) /\ (forall x y, isSpace3 x y c = false).
Proof.
  unfold isNumChar, isDigit, byteIs, isSpace, isSpace2, isSpace3, inCutset, byteIs.
  cbn [list_ascii_of_string existsb].
  intros Hc.
  assert (Hn : (43 <= N_of_ascii c <= 57)%N /\ N_of_ascii c <> 44%N).
  { destruct (N.leb_spec 48 (N_of_ascii c)), (N.leb_spec (N_of_ascii c) 57),
      (N.eqb_spec (N_of_ascii c) 45), (N.eqb_spec (N_of_ascii c) 43);
      cbn in Hc; try discriminate; lia. }
  destruct Hn as [Hn Hcomma].
  refine (conj _ (conj _ (conj _ (conj _ (conj _ (conj _ _)))))).
  - destruct (N.leb_spec 9 (N_of_ascii c)), (N.leb_spec (N_of_ascii c) 13),
      (N.eqb_spec (N_of_ascii c) 32); cbn; try reflexivity; lia.
  - assert (H1 : Ascii.eqb c "{" = false)
      by (apply Ascii.eqb_neq; intros ->; cbn in Hn; lia).
    assert (H2 : Ascii.eqb c "}" = false)
      by (apply Ascii.eqb_neq; intros ->; cbn in Hn; lia).
    rewrite H1, H2. reflexivity.
  - apply Ascii.eqb_neq. intros ->. cbn in Hcomma. lia.
  - intros x. destruct (N.eqb_spec (N_of_ascii c) 194); [lia|reflexivity].
  - intros x. destruct (N.eqb_spec (N_of_ascii c) 133), (N.eqb_spec (N_of_ascii c) 160);
      first [lia | cbn [orb]; rewrite andb_false_r; reflexivity].
  - intros x y.
    destruct (N.eqb_spec (N_of_ascii c) 225), (N.eqb_spec (N_of_ascii c) 226),
      (N.eqb_spec (N_of_ascii c) 227); first [lia | reflexivity].
  - intros x y.
    destruct (N.eqb_spec (N_of_ascii c) 128), (N.eqb_spec (N_of_ascii c) 168),
      (N.eqb_spec (N_of_ascii c) 169), (N.eqb_spec (N_of_ascii c) 175),
      (N.eqb_spec (N_of_ascii c) 159), (N.leb_spec 128 (N_of_ascii c));
      first [lia | cbn [andb orb]; rewrite !andb_false_r; reflexivity].
Qed.

(** A byte below 128 is no part of a white space rune of several bytes. *)
Lemma ascii_not_in_space_rune (c : ascii) :
  (N_of_ascii c < 128)%N ->
  (forall x, isSpace2 c x = false) /\ (forall x, isSpace2 x c = false) /\
  (forall x y, isSpace3 c x y = false) /\ (forall x y, isSpace3 x y c = false).
Proof.
  unfold isSpace2, isSpace3, byteIs. intros Hc.
  refine (conj _ (conj _ (conj _ _))).
  - intros x. destruct (N.eqb_spec (N_of_ascii c) 194); [lia|reflexivity].
  - intros x. destruct (N.eqb_spec (N_of_ascii c) 133), (N.eqb_spec (N_of_ascii c) 160);
      first [lia | cbn [orb]; rewrite andb_false_r; reflexivity].
  - intros x y.
    destruct (N.eqb_spec (N_of_ascii c) 225), (N.eqb_spec (N_of_ascii c) 226),
      (N.eqb_spec (N_of_ascii c) 227); first [lia | reflexivity].
  - intros x y.
    destruct (N.eqb_spec (N_of_ascii c) 128), (N.eqb_spec (N_of_ascii c) 168),
      (N.eqb_spec (N_of_ascii c) 169), (N.eqb_spec (N_of_ascii c) 175),
      (N.eqb_spec (N_of_ascii c) 159), (N.leb_spec 128 (N_of_ascii c));
      first [lia | cbn [andb orb]; rewrite !andb_false_r; reflexivity].
Qed.

Lemma dropSpaceRunes_stop (two : ascii -> ascii -> bool)
    (three : ascii -> ascii -> ascii -> bool) (c : ascii) (r : list ascii) :
  isSpace c = false -> (forall x, two c x = false) ->
  (forall x y, three c x y = false) ->
  dropSpaceRunes two three (c :: r) = c :: r.
Proof.
  intros Hs H2 H3. cbn [dropSpaceRunes]. rewrite Hs.
  destruct r as [|c2 [|c3 r3]]; [reflexivity| |]; rewrite H2;
    [reflexivity|]. rewrite H3. reflexivity.
Qed.

(** Trimming leaves alone a string that starts and ends with a byte
    below 128 that is no white space. *)
Lemma TrimSpace_id (l : list ascii) (first last : ascii)
    (mid init : list ascii) :
  l = first :: mid -> l = init ++ [last] ->
  (N_of_ascii first < 128)%N -> isSpace first = false ->
  (N_of_ascii last < 128)%N -> isSpace last = false ->
  strings_TrimSpace (string_of_list_ascii l) = string_of_list_ascii l.
Proof.
  intros Hl Hrev Hf Hfs Hla Hls. unfold strings_TrimSpace.
  rewrite list_ascii_of_string_of_list_ascii.
  destruct (ascii_not_in_space_rune first Hf) as (F2 & _ & F3 & _).
  destruct (ascii_not_in_space_rune last Hla) as (_ & L2 & _ & L3).
  rewrite Hl at 1. rewrite dropSpaceRunes_stop by auto. rewrite <- Hl.
  rewrite Hrev at 1. rewrite rev_app_distr. cbn [rev app].
  rewrite dropSpaceRunes_stop by auto.
  change (last :: rev init) with (rev [last] ++ rev init).
  rewrite <- rev_app_distr, rev_involutive, <- Hrev. reflexivity.
Qed.

(** A sequence of digits and signs starts and ends with one. *)
Lemma numeric_ends (l : list ascii) :
  l <> [] -> forallb isNumChar l = true ->
  exists first mid init last,
    l = first :: mid /\ l = init ++ [last] /\
    isNumChar first = true /\ isNumChar last = true.
Proof.
  intros Hne Hall. destruct (exists_last Hne) as (init & last & Hlast).
  destruct l as [|first mid]; [congruence|].
  exists first, mid, init, last. rewrite forallb_forall in Hall.
  repeat split.
  - exact Hlast.
  - apply Hall. left. reflexivity.
  - apply Hall. rewrite Hlast. apply in_or_app. right. left. reflexivity.
Qed.

Lemma isNumChar_ascii (c : ascii) :
  isNumChar c = true -> (N_of_ascii c < 128)%N.
Proof.
  unfold isNumChar, isDigit, byteIs. intros Hc.
  destruct (N.leb_spec 48 (N_of_ascii c)), (N.leb_spec (N_of_ascii c) 57),
    (N.eqb_spec (N_of_ascii c) 45), (N.eqb_spec (N_of_ascii c) 43);
    cbn in Hc; try discriminate; lia.
Qed.

(** A string of digits and signs is left alone by the trimming. *)
Lemma TrimSpace_numeric (l : list ascii) :
  l <> [] -> forallb isNumChar l = true ->
  strings_TrimSpace (string_of_list_ascii l) = string_of_list_ascii l.
Proof.
  intros Hne Hall.
  destruct (numeric_ends l Hne Hall)
    as (first & mid & init & last & Hl & Hr & Hfirst & Hlast).
  apply (TrimSpace_id l first last mid init); auto using isNumChar_ascii.
  - apply (isNumChar_plain first Hfirst).
  - apply (isNumChar_plain last Hlast).
Qed.

(** What [strconv.Atoi] accepts is made of digits and signs. *)
Lemma Atoi_numeric (s : string) (n : Z) :
  strconv_Atoi s = Some n ->
  list_ascii_of_string s <> [] /\
  forallb isNumChar (list_ascii_of_string s) = true /\
  int_min <= n <= int_max.
Proof.
  unfold strconv_Atoi.
  assert (Hdig : forall l, forallb isDigit l = true -> forallb isNumChar l = true).
  { induction l as [|x l IH]; [reflexivity|]. cbn [forallb].
    intros [Hx Hl]%andb_true_iff. rewrite (IH Hl). unfold isNumChar.
    rewrite Hx. reflexivity. }
  assert (Hfin : forall (neg : bool) (digits : list ascii),
             match digits with
             | [] => None
             | _ :: _ =>
                 if forallb isDigit digits then
                   let v := if neg then - digitsVal digits else digitsVal digits in
                   if (int_min <=? v) && (v <=? int_max) then Some v else None
                 else None
             end = Some n ->
             digits <> [] /\ forallb isDigit digits = true /\ int_min <= n <= int_max).
  { intros neg digits. destruct digits as [|d ds]; [discriminate|].
    destruct (forallb isDigit (d :: ds)); [|discriminate]. cbv zeta.
    destruct ((int_min <=? _) && (_ <=? int_max)) eqn:Hr; [|discriminate].
    intros [= <-]. apply andb_true_iff in Hr as [H1 H2].
    apply Z.leb_le in H1, H2. repeat split; [discriminate|lia|lia]. }
  destruct (list_ascii_of_string s) as [|c r]; [discriminate|].
  destruct (byteIs c 45) eqn:Hm; [|destruct (byteIs c 43) eqn:Hp].
  - intros H. destruct (Hfin true r H) as (_ & Hd & Hn).
    repeat split; [discriminate| |lia|lia].
    cbn [forallb]. unfold isNumChar at 1. rewrite Hm, (Hdig _ Hd), orb_true_r.
    reflexivity.
  - intros H. destruct (Hfin false r H) as (_ & Hd & Hn).
    repeat split; [discriminate| |lia|lia].
    cbn [forallb]. unfold isNumChar at 1. rewrite Hp, (Hdig _ Hd), orb_true_r.
    reflexivity.
  - intros H. destruct (Hfin false (c :: r) H) as (_ & Hd & Hn).
    repeat split; [discriminate| |lia|lia]. apply Hdig. exact Hd.
Qed.

Lemma Atoi_empty : strconv_Atoi "" = None.
Proof. reflexivity. Qed.

Lemma length_zero_nil {A : Type} (l : list A) :
  (Z.of_nat (List.length l) =? 0) = match l with [] => true | _ => false end.
Proof. destruct l; reflexivity. Qed.

(** The loop of [buildPgIntArray] keeps the clean IDs, in order. *)
Lemma buildPgIntArray_clean (ids acc : list string) :
  fold_left
    (fun clean s =>
       let s := strings_TrimSpace s in
       if String.eqb s "" then clean
       else match strconv_Atoi s with
            | Some _ => clean ++ [s]
            | None => clean
            end) ids acc
  = acc ++ omap cleanID ids.
Proof.
  revert acc. induction ids as [|s ids IH]; intros acc.
  - cbn. rewrite app_nil_r. reflexivity.
  - cbn [fold_left]. rewrite IH. cbn [omap list_omap]. unfold cleanID at 2.
    cbv zeta.
    destruct (String.eqb_spec (strings_TrimSpace s) "") as [He|Hne].
    + rewrite He, Atoi_empty. reflexivity.
    + destruct (strconv_Atoi (strings_TrimSpace s)); [|reflexivity].
      rewrite <- app_assoc. reflexivity.
Qed.

Lemma buildPgIntArray_spec (ids : list string) :
  buildPgIntArray ids =
  match omap cleanID ids with
  | [] => "{}"
  | clean => "{" +:+ strings_Join clean "," +:+ "}"
  end.
Proof.
  unfold buildPgIntArray. rewrite buildPgIntArray_clean, app_nil_l.
  rewrite !length_zero_nil.
  destruct ids as [|s ids]; [reflexivity|].
  destruct (omap cleanID (s :: ids)); reflexivity.
Qed.

(** Every clean ID is accepted by [strconv.Atoi]. *)
Lemma cleanID_numeric (ids : list string) :
  Forall (fun t => exists n, strconv_Atoi t = Some n) (omap cleanID ids).
Proof.
  induction ids as [|s ids IH]; [constructor|].
  cbn [omap list_omap]. unfold cleanID at 1. cbv zeta.
  destruct (strconv_Atoi (strings_TrimSpace s)) as [n|] eqn:Hn; [|exact IH].
  constructor; [exists n; exact Hn|exact IH].
Qed.

(** The loop of [parsePgIntArray] keeps the positive values, in order. *)
Lemma parsePgIntArray_loop (parts : list string) (acc : list Z) :
  fold_left
    (fun out p =>
       match strconv_Atoi (strings_TrimSpace p) with
       | Some n => if 0 <? n then out ++ [n] else out
       | None => out
       end) parts acc
  = acc ++ omap positiveID parts.
Proof.
  revert acc. induction parts as [|p parts IH]; intros acc.
  - cbn. rewrite app_nil_r. reflexivity.
  - cbn [fold_left]. rewrite IH. cbn [omap list_omap]. unfold positiveID at 2.
    destruct (strconv_Atoi (strings_TrimSpace p)) as [n|]; [|reflexivity].
    destruct (0 <? n); [|reflexivity].
    rewrite <- app_assoc. reflexivity.
Qed.

Lemma parsePgIntArray_spec (raw : string) :
  parsePgIntArray raw =
  let inner := strings_Trim (strings_TrimSpace raw) "{}" in
  if String.eqb inner "" then None
  else Some (omap positiveID (strings_Split inner ",")).
Proof.
  unfold parsePgIntArray. cbv zeta.
  destruct (String.eqb _ ""); [reflexivity|].
  rewrite parsePgIntArray_loop. reflexivity.
Qed.

Lemma positiveID_range (p : string) (n : Z) :
  positiveID p = Some n -> 0 < n <= int_max.
Proof.
  unfold positiveID.
  destruct (strconv_Atoi (strings_TrimSpace p)) as [m|] eqn:Hm; [|discriminate].
  destruct (Z.ltb_spec 0 m); [|discriminate]. intros [= <-].
  destruct (Atoi_numeric _ _ Hm) as (_ & _ & Hr). lia.
Qed.

Lemma parsePgIntArray_pos (raw : string) (ns : list Z) :
  parsePgIntArray raw = Some ns -> Forall (fun n => 0 < n <= int_max) ns.
Proof.
  rewrite parsePgIntArray_spec. cbv zeta.
  destruct (String.eqb _ ""); [discriminate|]. intros [= <-].
  induction (strings_Split (strings_Trim (strings_TrimSpace raw) "{}") ",")
    as [|p parts IH]; [constructor|].
  cbn [omap list_omap]. destruct (positiveID p) as [n|] eqn:Hp; [|exact IH].
  constructor; [exact (positiveID_range p n Hp)|exact IH].
Qed.

(** X16. Whatever text it is given, [parsePgIntArray] returns only
    integers above 0 that fit an [int]: zero, negative numbers, numbers
    out of range and pieces that are no number are dropped; it returns
    at most one integer per comma-separated piece. *)
Theorem parsePgIntArray_positive (raw : string) (ns : list Z) :
  parsePgIntArray raw = Some ns ->
  Forall (fun n => 0 < n <= int_max) ns /\
  (List.length ns <=
   List.length (strings_Split (strings_Trim (strings_TrimSpace raw) "{}") ","))%nat.
Proof.
  rewrite parsePgIntArray_spec. cbv zeta.
  destruct (String.eqb _ ""); [discriminate|]. intros [= <-].
  assert (Hpos := positiveID_range).
  generalize (strings_Split (strings_Trim (strings_TrimSpace raw) "{}") ",").
  intros parts. induction parts as [|p parts [IH1 IH2]];
    [split; [constructor|cbn; lia]|].
  cbn [omap list_omap].
  destruct (positiveID p) as [n|] eqn:Hp.
  - split; [constructor; [exact (Hpos p n Hp)|exact IH1]|].
    cbn [List.length]. lia.
  - split; [exact IH1|]. cbn [List.length]. lia.
Qed.

Lemma parsePgIntArray_positive_witness :
  Forall (fun n => 0 < n <= int_max) [1; 7].
Proof.
  exact (proj1 (parsePgIntArray_positive "{1, -2,x,+7,0,99999999999999999999}"
                  [1; 7] eq_refl)).
Defined.

Lemma splitOn_app (c : ascii) (l r : list ascii) :
  forallb (fun x => negb (Ascii.eqb x c)) l = true ->
  splitOn c (l ++ c :: r) = l :: splitOn c r.
Proof.
  induction l as [|x l IH]; intros Hl.
  - cbn [app splitOn]. rewrite Ascii.eqb_refl. reflexivity.
  - cbn [forallb] in Hl. apply andb_true_iff in Hl as [Hx Hl].
    cbn [app splitOn]. apply negb_true_iff in Hx. rewrite Hx, (IH Hl).
    reflexivity.
Qed.

Lemma splitOn_none (c : ascii) (l : list ascii) :
  forallb (fun x => negb (Ascii.eqb x c)) l = true ->
  splitOn c l = [l].
Proof.
  induction l as [|x l IH]; intros Hl; [reflexivity|].
  cbn [forallb] in Hl. apply andb_true_iff in Hl as [Hx Hl].
  cbn [splitOn]. apply negb_true_iff in Hx. rewrite Hx, (IH Hl). reflexivity.
Qed.

Lemma numeric_no_comma (l : list ascii) :
  forallb isNumChar l = true ->
  forallb (fun x => negb (Ascii.eqb x ",")) l = true.
Proof.
  induction l as [|x l IH]; [reflexivity|]. cbn [forallb].
  intros [Hx Hl]%andb_true_iff. rewrite (IH Hl).
  destruct (isNumChar_plain x Hx) as (_ & _ & -> & _). reflexivity.
Qed.

Local Abbreviation accepted := (fun t => exists n, strconv_Atoi t = Some n).

(** Splitting a joined list of numbers gives the numbers back. *)
Lemma split_join (clean : list string) :
  clean <> [] -> Forall accepted clean ->
  strings_Split (strings_Join clean ",") "," = clean.
Proof.
  induction clean as [|t rest IH]; [congruence|]. intros _ Hall.
  inversion Hall as [|? ? [n Hn] Hrest]; subst.
  destruct (Atoi_numeric _ _ Hn) as (_ & Hnum & _).
  destruct rest as [|t2 rest'].
  - cbn [strings_Join]. unfold strings_Split.
    rewrite splitOn_none by (apply numeric_no_comma; exact Hnum).
    cbn [List.map]. rewrite string_of_list_ascii_of_string. reflexivity.
  - change (strings_Join (t :: t2 :: rest') ",")
      with (t +:+ "," +:+ strings_Join (t2 :: rest') ",").
    unfold strings_Split. rewrite !list_ascii_of_string_app.
    change (list_ascii_of_string ",") with [","%char]. cbn [app].
    rewrite splitOn_app by (apply numeric_no_comma; exact Hnum).
    cbn [List.map]. rewrite string_of_list_ascii_of_string. f_equal.
    apply IH; [discriminate|exact Hrest].
Qed.

(** The joined numbers, as bytes: they start and end with a digit or a
    sign and hold nothing but digits, signs and commas. *)
Lemma join_ends (clean : list string) :
  clean <> [] -> Forall accepted clean ->
  exists first mid init last,
    list_ascii_of_string (strings_Join clean ",") = first :: mid /\
    list_ascii_of_string (strings_Join clean ",") = init ++ [last] /\
    isNumChar first = true /\ isNumChar last = true /\
    forallb isTokChar (list_ascii_of_string (strings_Join clean ",")) = true.
Proof.
  induction clean as [|t rest IH]; [congruence|]. intros _ Hall.
  inversion Hall as [|? ? [n Hn] Hrest]; subst.
  destruct (Atoi_numeric _ _ Hn) as (Hne & Hnum & _).
  destruct (numeric_ends _ Hne Hnum) as (f & m & i & l & Hf & Hl & Hfn & Hln).
  assert (Htok : forall l0, forallb isNumChar l0 = true -> forallb isTokChar l0 = true).
  { induction l0 as [|x l0 IHl]; [reflexivity|]. cbn [forallb].
    intros [Hx Hl0]%andb_true_iff. rewrite (IHl Hl0). unfold isTokChar.
    rewrite Hx. reflexivity. }
  destruct rest as [|t2 rest'].
  - exists f, m, i, l. cbn [strings_Join]. repeat split; auto.
  - destruct (IH ltac:(discriminate) Hrest) as (f' & m' & i' & l' & Hf' & Hl' & _ & Hln' & Htok').
    change (strings_Join (t :: t2 :: rest') ",")
      with (t +:+ "," +:+ strings_Join (t2 :: rest') ",").
    rewrite !list_ascii_of_string_app.
    change (list_ascii_of_string ",") with [","%char]. cbn [app].
    exists f, (m ++ ","%char :: list_ascii_of_string (strings_Join (t2 :: rest') ",")),
      (list_ascii_of_string t ++ ","%char :: i'), l'.
    repeat split.
    + rewrite Hf. reflexivity.
    + rewrite Hl' at 1. rewrite <- app_assoc. reflexivity.
    + exact Hfn.
    + exact Hln'.
    + rewrite forallb_app. cbn [forallb]. rewrite (Htok _ Hnum), Htok'.
      reflexivity.
Qed.

(** X17. Whatever the form submits, [buildPgIntArray] returns an array
    literal: an opening brace, then nothing but decimal digits, signs
    and commas, then a closing brace; no other character of the
    submitted values reaches the query parameter. *)
Theorem buildPgIntArray_literal (ids : list string) :
  exists inner,
    buildPgIntArray ids = "{" +:+ inner +:+ "}" /\
    forallb isTokChar (list_ascii_of_string inner) = true /\
    inner = strings_Join (omap cleanID ids) ",".
Proof.
  rewrite buildPgIntArray_spec.
  destruct (omap cleanID ids) as [|t rest] eqn:Hclean.
  - exists "". repeat split.
  - exists (strings_Join (t :: rest) ","). split; [reflexivity|]. split; [|reflexivity].
    assert (Hall := cleanID_numeric ids). rewrite Hclean in Hall.
    destruct (join_ends (t :: rest) ltac:(discriminate) Hall)
      as (_ & _ & _ & _ & _ & _ & _ & _ & Htok).
    exact Htok.
Qed.

Lemma dropWhileEnd_id {A : Type} (p : A -> bool) (init : list A) (x : A) :
  p x = false -> dropWhileEnd p (init ++ [x]) = init ++ [x].
Proof.
  intros Hx. unfold dropWhileEnd. rewrite rev_app_distr. cbn [rev app dropWhile].
  rewrite Hx. change (x :: rev init) with (rev [x] ++ rev init).
  rewrite <- rev_app_distr, rev_involutive. reflexivity.
Qed.

(** The braces come off an array literal, and nothing else does. *)
Lemma trim_braces (inner : string) (first last : ascii) (mid init : list ascii) :
  list_ascii_of_string inner = first :: mid ->
  list_ascii_of_string inner = init ++ [last] ->
  isNumChar first = true -> isNumChar last = true ->
  strings_TrimSpace ("{" +:+ inner +:+ "}") = "{" +:+ inner +:+ "}" /\
  strings_Trim ("{" +:+ inner +:+ "}") "{}" = inner.
Proof.
  intros Hf Hl Hfn Hln.
  assert (Hlist : list_ascii_of_string ("{" +:+ inner +:+ "}") =
                  "{"%char :: list_ascii_of_string inner ++ ["}"%char]).
  { rewrite !list_ascii_of_string_app. reflexivity. }
  split.
  - rewrite <- (string_of_list_ascii_of_string ("{" +:+ inner +:+ "}")).
    rewrite Hlist.
    apply (TrimSpace_id _ "{"%char "}"%char
             (list_ascii_of_string inner ++ ["}"%char])
             ("{"%char :: list_ascii_of_string inner));
      try reflexivity; cbn; lia.
  - unfold strings_Trim. rewrite Hlist.
    destruct (isNumChar_plain first Hfn) as (_ & Hcf & _).
    destruct (isNumChar_plain last Hln) as (_ & Hcl & _).
    change (dropWhile (inCutset "{}") ("{"%char :: list_ascii_of_string inner ++ ["}"%char]))
      with (dropWhile (inCutset "{}") (list_ascii_of_string inner ++ ["}"%char])).
    rewrite Hf at 1. cbn [app dropWhile]. rewrite Hcf.
    change (first :: mid ++ ["}"%char]) with ((first :: mid) ++ ["}"%char]).
    rewrite <- Hf, dropWhileEnd_app by reflexivity.
    rewrite Hl, dropWhileEnd_id by exact Hcl.
    rewrite <- Hl. apply string_of_list_ascii_of_string.
Qed.

(** Parsing a clean ID or the ID it was cleaned from gives the same. *)
Lemma positiveID_clean (ids : list string) :
  omap positiveID (omap cleanID ids) = omap positiveID ids.
Proof.
  induction ids as [|s ids IH]; [reflexivity|].
  cbn [omap list_omap]. unfold cleanID at 1, positiveID at 2. cbv zeta.
  destruct (strconv_Atoi (strings_TrimSpace s)) as [n|] eqn:Hn;
    [|exact IH].
  cbn [omap list_omap]. unfold positiveID at 1.
  destruct (Atoi_numeric _ _ Hn) as (Hne & Hnum & _).
  rewrite <- (string_of_list_ascii_of_string (strings_TrimSpace s)) at 1.
  rewrite TrimSpace_numeric by assumption.
  rewrite string_of_list_ascii_of_string, Hn, IH. reflexivity.
Qed.

(** X18. Round trip of the aroma IDs: what [parsePgIntArray] reads from
    the array [buildPgIntArray] wrote is exactly the submitted IDs that
    are integers above 0, in the order submitted, each trimmed of white
    space; when no submitted value is an integer it reads nil. *)
Theorem pg_int_array_round_trip (ids : list string) :
  parsePgIntArray (buildPgIntArray ids) =
  match omap cleanID ids with
  | [] => None
  | _ :: _ => Some (omap positiveID ids)
  end.
Proof.
  rewrite buildPgIntArray_spec.
  destruct (omap cleanID ids) as [|t rest] eqn:Hclean; [reflexivity|].
  assert (Hall := cleanID_numeric ids). rewrite Hclean in Hall.
  destruct (join_ends (t :: rest) ltac:(discriminate) Hall)
    as (first & mid & init & last & Hf & Hl & Hfn & Hln & _).
  destruct (trim_braces _ first last mid init Hf Hl Hfn Hln) as [Hsp Htrim].
  rewrite parsePgIntArray_spec, Hsp, Htrim. cbv zeta.
  destruct (String.eqb_spec (strings_Join (t :: rest) ",") "") as [He|_].
  { rewrite He in Hf. discriminate Hf. }
  rewrite split_join by (discriminate || exact Hall).
  rewrite <- Hclean, positiveID_clean. reflexivity.
Qed.

(** * Properties of the geocoding endpoints *)

Lemma escapeByte_chars (c : ascii) : forallb isEscaped (escapeByte c) = true.
Proof. destruct c as [[] [] [] [] [] [] [] []]; vm_compute; reflexivity. Qed.

Lemma unescape_escapeByte (c : ascii) (r : list ascii) :
  unescape (escapeByte c ++ r) = c :: unescape r.
Proof. destruct c as [[] [] [] [] [] [] [] []]; reflexivity. Qed.

Lemma unescape_escape (l : list ascii) :
  unescape (flat_map escapeByte l) = l.
Proof.
  induction l as [|c l IH]; [reflexivity|].
  cbn [flat_map]. rewrite unescape_escapeByte, IH. reflexivity.
Qed.

Lemma url_QueryEscape_inj (a b : string) :
  url_QueryEscape a = url_QueryEscape b -> a = b.
Proof.
  unfold url_QueryEscape. intros H.
  apply (f_equal list_ascii_of_string) in H.
  rewrite !list_ascii_of_string_of_list_ascii in H.
  apply (f_equal unescape) in H. rewrite !unescape_escape in H.
  rewrite <- (string_of_list_ascii_of_string a),
          <- (string_of_list_ascii_of_string b), H.
  reflexivity.
Qed.

Lemma url_QueryEscape_chars (s : string) :
  forallb isEscaped (list_ascii_of_string (url_QueryEscape s)) = true.
Proof.
  unfold url_QueryEscape. rewrite list_ascii_of_string_of_list_ascii.
  induction (list_ascii_of_string s) as [|c l IH]; [reflexivity|].
  cbn [flat_map]. rewrite forallb_app, escapeByte_chars, IH. reflexivity.
Qed.

Lemma append_inj_l (p a b : string) : p +:+ a = p +:+ b -> a = b.
Proof.
  induction p as [|c p IH]; [auto|]. cbn. intros [= H]. exact (IH H).
Qed.

Lemma string_app_assoc (a b c : string) : (a +:+ b) +:+ c = a +:+ b +:+ c.
Proof.
  induction a as [|x a IH]; [reflexivity|].
  change (String x ((a +:+ b) +:+ c) = String x (a +:+ b +:+ c)).
  rewrite IH. reflexivity.
Qed.

Lemma searchURL_encode (em q : string) :
  "https://nominatim.openstreetmap.org/search" +:+ "?" +:+
  Values_Encode
    (let v : Values := ∅ in
     let v := Values_Set "format" "json" v in
     let v := Values_Set "q" q v in
     let v := Values_Set "limit" "6" v in
     let v := Values_Set "addressdetails" "1" v in
     let v := Values_Set "accept-language" "fr" v in
     if negb (String.eqb em "") then Values_Set "email" em v else v)
  = searchURL em q.
Proof.
  unfold searchURL. destruct (String.eqb em ""); cbn [negb].
  - vm_compute. reflexivity.
  - transitivity
      ("https://nominatim.openstreetmap.org/search" +:+ "?" +:+
       ((((((("accept-language=fr&addressdetails=1&email=" +:+ url_QueryEscape em)
              +:+ "&") +:+ "format=json") +:+ "&") +:+ "limit=6") +:+ "&")
        +:+ "q=" +:+ url_QueryEscape q)).
    + vm_compute. reflexivity.
    + rewrite !string_app_assoc. reflexivity.
Qed.

Lemma reverseURL_encode (em lat lon : string) :
  "https://nominatim.openstreetmap.org/reverse" +:+ "?" +:+
  Values_Encode
    (let v : Values := ∅ in
     let v := Values_Set "format" "json" v in
     let v := Values_Set "lat" lat v in
     let v := Values_Set "lon" lon v in
     let v := Values_Set "addressdetails" "1" v in
     let v := Values_Set "accept-language" "fr" v in
     if negb (String.eqb em "") then Values_Set "email" em v else v)
  = reverseURL em lat lon.
Proof.
  unfold reverseURL. destruct (String.eqb em ""); cbn [negb].
  - transitivity
      ("https://nominatim.openstreetmap.org/reverse" +:+ "?" +:+
       ((("accept-language=fr&addressdetails=1&format=json&lat="
          +:+ url_QueryEscape lat) +:+ "&")
        +:+ "lon=" +:+ url_QueryEscape lon)).
    + vm_compute. reflexivity.
    + rewrite !string_app_assoc. reflexivity.
  - transitivity
      ("https://nominatim.openstreetmap.org/reverse" +:+ "?" +:+
       ((((((("accept-language=fr&addressdetails=1&email=" +:+ url_QueryEscape em)
              +:+ "&") +:+ "format=json") +:+ "&")
           +:+ "lat=" +:+ url_QueryEscape lat) +:+ "&")
        +:+ "lon=" +:+ url_QueryEscape lon)).
    + vm_compute. reflexivity.
    + rewrite !string_app_assoc. reflexivity.
Qed.

Section GeoFacts.
Variable os_Getenv : string -> string.
Variable url_Parse : string -> option error.
Variable geoHTTPClient_Do : Request -> Response + error.
Variables tGet tSet tSweep : Time.
Variable query : string -> string.
Variable w : World.

Local Abbreviation search :=
  (GeoSearch os_Getenv url_Parse geoHTTPClient_Do tGet tSet tSweep query
     newResponseWriter w).
Local Abbreviation reverse :=
  (GeoReverse os_Getenv url_Parse geoHTTPClient_Do tGet tSet tSweep query
     newResponseWriter w).
Local Abbreviation proxyAt :=
  (fun u => nominatimProxy os_Getenv url_Parse geoHTTPClient_Do tGet tSet
              tSweep u newResponseWriter w).
Local Abbreviation em := (nominatimEmailParam os_Getenv).
Local Abbreviation trimmed := (fun k => strings_TrimSpace (query k)).

(** X19. A search whose query, trimmed, has fewer than two bytes is
    answered at once with status 200 and the empty JSON array: the cache
    is not consulted, nothing is sent upstream, nothing is stored. *)
Theorem GeoSearch_short_query :
  Z.of_nat (String.length (trimmed "q")) < 2 ->
  rw_Code (result search) = Some 200 /\
  rw_Body (result search) = list_byte_of_string "[]" /\
  rw_Header (result search) !! "Content-Type"
    = Some "application/json; charset=utf-8" /\
  trace search = [] /\
  world search = w.
Proof.
  intros Hshort. unfold GeoSearch. cbv zeta.
  apply Z.ltb_lt in Hshort. rewrite Hshort. repeat split.
Qed.

(** X20. A search whose trimmed query has two bytes or more is the
    proxy run for one URL: the fixed parameters in alphabetical order,
    the e-mail setting when there is one, and the trimmed query escaped
    last; the escaped query holds only letters, digits and the
    characters - _ . ~ + %, so no text typed by the user can end the
    parameter or add one. *)
Theorem GeoSearch_proxies_escaped_query :
  2 <= Z.of_nat (String.length (trimmed "q")) ->
  search = proxyAt (searchURL em (trimmed "q")) /\
  searchURL em (trimmed "q") =
    "https://nominatim.openstreetmap.org/search?accept-language=fr&addressdetails=1&"
    +:+ (if String.eqb em "" then "" else "email=" +:+ url_QueryEscape em +:+ "&")
    +:+ "format=json&limit=6&q=" +:+ url_QueryEscape (trimmed "q") /\
  forallb isEscaped (list_ascii_of_string (url_QueryEscape (trimmed "q"))) = true /\
  (forall r, In (EvUpstream r) (trace search) ->
             req_URL r = searchURL em (trimmed "q")).
Proof.
  intros Hlong.
  assert (Hrun : search = proxyAt (searchURL em (trimmed "q"))).
  { unfold GeoSearch. cbv zeta.
    destruct (Z.ltb_spec (Z.of_nat (String.length (trimmed "q"))) 2); [lia|].
    rewrite <- searchURL_encode. reflexivity. }
  split; [exact Hrun|]. split; [reflexivity|].
  split; [apply url_QueryEscape_chars|].
  intros r Hin. rewrite Hrun in Hin.
  apply proxy_upstream_only in Hin. subst r. reflexivity.
Qed.

(** X21. [GeoReverse] refuses with status 400, before the cache or the
    network is touched, a request whose lat or lon is blank, and one
    whose trimmed lat or lon is longer than 20 bytes; any other request
    is the proxy run for the reverse URL with both values escaped. *)
Theorem GeoReverse_guards :
  (trimmed "lat" = "" \/ trimmed "lon" = "" ->
   result reverse = http_Error newResponseWriter "lat et lon requis" 400 /\
   rw_Code (result reverse) = Some 400 /\
   trace reverse = [] /\ world reverse = w) /\
  (trimmed "lat" <> "" -> trimmed "lon" <> "" ->
   20 < Z.of_nat (String.length (trimmed "lat")) \/
   20 < Z.of_nat (String.length (trimmed "lon")) ->
   result reverse = http_Error newResponseWriter "lat/lon invalides" 400 /\
   rw_Code (result reverse) = Some 400 /\
   trace reverse = [] /\ world reverse = w) /\
  (trimmed "lat" <> "" -> trimmed "lon" <> "" ->
   Z.of_nat (String.length (trimmed "lat")) <= 20 ->
   Z.of_nat (String.length (trimmed "lon")) <= 20 ->
   reverse = proxyAt (reverseURL em (trimmed "lat") (trimmed "lon"))).
Proof.
  unfold GeoReverse. cbv zeta.
  split; [|split].
  - intros Hblank.
    assert (Hb : String.eqb (trimmed "lat") "" || String.eqb (trimmed "lon") "" = true).
    { apply orb_true_iff. rewrite !String.eqb_eq. exact Hblank. }
    rewrite Hb. repeat split.
  - intros Hlat Hlon Hlong.
    apply String.eqb_neq in Hlat, Hlon. rewrite Hlat, Hlon. cbn [orb].
    assert (Hl : (20 <? Z.of_nat (String.length (trimmed "lat")))
                 || (20 <? Z.of_nat (String.length (trimmed "lon"))) = true).
    { apply orb_true_iff. rewrite !Z.ltb_lt. exact Hlong. }
    rewrite Hl. repeat split.
  - intros Hlat Hlon Hl1 Hl2.
    apply String.eqb_neq in Hlat, Hlon. rewrite Hlat, Hlon. cbn [orb].
    destruct (Z.ltb_spec 20 (Z.of_nat (String.length (trimmed "lat")))); [lia|].
    destruct (Z.ltb_spec 20 (Z.of_nat (String.length (trimmed "lon")))); [lia|].
    cbn [orb]. rewrite <- reverseURL_encode. reflexivity.
Qed.
End GeoFacts.

(** X22. The cache key of a search tells the queries apart: for a given
    e-mail setting, two trimmed queries give the same URL only if they
    are the same bytes. *)
Theorem searchURL_inj (em q1 q2 : string) :
  searchURL em q1 = searchURL em q2 -> q1 = q2.
Proof.
  unfold searchURL. intros H.
  apply append_inj_l in H. apply append_inj_l in H. apply append_inj_l in H.
  apply url_QueryEscape_inj. exact H.
Qed.

Lemma GeoSearch_short_query_witness :
  rw_Body (result (GeoSearch noGetenv sampleParse sampleGeoDo 1000 1001 1002
                     (fun _ => " a ") newResponseWriter initWorld))
  = list_byte_of_string "[]".
Proof.
  assert (Hshort : Z.of_nat (String.length (strings_TrimSpace " a ")) < 2)
    by (vm_compute; reflexivity).
  exact (proj1 (proj2 (GeoSearch_short_query noGetenv sampleParse sampleGeoDo
                         1000 1001 1002 (fun _ => " a ") initWorld Hshort))).
Defined.

Lemma GeoSearch_proxies_escaped_query_witness :
  GeoSearch noGetenv sampleParse sampleGeoDo 1000 1001 1002
    (fun _ => " Paris 1er ") newResponseWriter initWorld =
  nominatimProxy noGetenv sampleParse sampleGeoDo 1000 1001 1002
    (searchURL (nominatimEmailParam noGetenv)
       (strings_TrimSpace " Paris 1er "))
    newResponseWriter initWorld.
Proof.
  assert (Hlong : 2 <= Z.of_nat (String.length (strings_TrimSpace " Paris 1er ")))
    by (vm_compute; discriminate).
  exact (proj1 (GeoSearch_proxies_escaped_query noGetenv sampleParse sampleGeoDo
                  1000 1001 1002 (fun _ => " Paris 1er ") initWorld Hlong)).
Defined.

Lemma GeoReverse_guards_witness :
  rw_Code (result (GeoReverse noGetenv sampleParse sampleGeoDo 1000 1001 1002
                     (fun k => if String.eqb k "lat" then "48.85" else "  ")
                     newResponseWriter initWorld))
  = Some 400.
Proof.
  assert (Hblank : strings_TrimSpace "48.85" = "" \/
                   strings_TrimSpace "  " = "")
    by (right; reflexivity).
  exact (proj1 (proj2 (proj1 (GeoReverse_guards noGetenv sampleParse sampleGeoDo
                                1000 1001 1002
                                (fun k => if String.eqb k "lat" then "48.85"
                                          else "  ")
                                initWorld) Hblank))).
Defined.

Lemma searchURL_inj_witness : "Paris" = "Paris".
Proof.
  exact (searchURL_inj "me@x.org" "Paris" "Paris" eq_refl).
Defined.

(** * [strings.TrimSpace] on ASCII text *)

Lemma dropSpaceRunes_ascii (two : ascii -> ascii -> bool)
    (three : ascii -> ascii -> ascii -> bool) (l : list ascii) :
  (forall c x, (N_of_ascii c < 128)%N -> two c x = false) ->
  (forall c x y, (N_of_ascii c < 128)%N -> three c x y = false) ->
  forallb (fun c => (N_of_ascii c <? 128)%N) l = true ->
  dropSpaceRunes two three l = dropWhile isSpace l.
Proof.
  intros H2 H3. induction l as [|c r IH]; [reflexivity|].
  cbn [forallb]. intros [Hc Hr]%andb_true_iff. apply N.ltb_lt in Hc.
  cbn [dropSpaceRunes dropWhile].
  destruct (isSpace c); [exact (IH Hr)|].
  destruct r as [|c2 [|c3 r3]]; [reflexivity| |]; rewrite (H2 c _ Hc);
    [reflexivity|]. rewrite (H3 c _ _ Hc). reflexivity.
Qed.

Lemma dropWhile_forallb {A : Type} (p q : A -> bool) (l : list A) :
  forallb q l = true -> forallb q (dropWhile p l) = true.
Proof.
  induction l as [|x l IH]; [reflexivity|]. cbn [forallb dropWhile].
  intros [Hx Hl]%andb_true_iff.
  destruct (p x); [exact (IH Hl)|]. cbn [forallb]. rewrite Hx, Hl. reflexivity.
Qed.

Lemma forallb_rev {A : Type} (q : A -> bool) (l : list A) :
  forallb q l = true -> forallb q (rev l) = true.
Proof.
  rewrite !forallb_forall. intros H x Hx. apply H, in_rev. exact Hx.
Qed.

(** On a string whose bytes are all below 128, trimming drops the
    one-byte white space characters at both ends and nothing else. *)
Lemma TrimSpace_ascii (s : string) :
  forallb (fun c => (N_of_ascii c <? 128)%N) (list_ascii_of_string s) = true ->
  strings_TrimSpace s =
  string_of_list_ascii
    (dropWhileEnd isSpace (dropWhile isSpace (list_ascii_of_string s))).
Proof.
  intros Hs. unfold strings_TrimSpace, dropWhileEnd.
  rewrite (dropSpaceRunes_ascii isSpace2 isSpace3).
  - rewrite dropSpaceRunes_ascii; [reflexivity| | |].
    + intros c x Hc. apply (ascii_not_in_space_rune c Hc).
    + intros c x y Hc. apply (ascii_not_in_space_rune c Hc).
    + apply forallb_rev, dropWhile_forallb, Hs.
  - intros c x Hc. apply (ascii_not_in_space_rune c Hc).
  - intros c x y Hc. apply (ascii_not_in_space_rune c Hc).
  - exact Hs.
Qed.

(** * Properties of the tasting helpers *)

Lemma aromaMapFromSlice_snoc (l : list Aroma) (a : Aroma) :
  aromaMapFromSlice (l ++ [a]) =
  <[aroma_ID a := aroma_Name a]> (aromaMapFromSlice l).
Proof. unfold aromaMapFromSlice. rewrite fold_left_app. reflexivity. Qed.

(** A name in the map is the name of an aroma of the slice. *)
Lemma aromaMapFromSlice_Some (l : list Aroma) (id : Z) (name : string) :
  aromaMapFromSlice l !! id = Some name ->
  exists a, In a l /\ aroma_ID a = id /\ aroma_Name a = name.
Proof.
  induction l as [|a l IH] using rev_ind.
  - unfold aromaMapFromSlice. cbn [fold_left]. rewrite lookup_empty. discriminate.
  - rewrite aromaMapFromSlice_snoc.
    destruct (decide (aroma_ID a = id)) as [Heq|Hne].
    + rewrite Heq, lookup_insert_eq. intros [= <-].
      exists a. split; [apply in_or_app; right; left; reflexivity|auto].
    + rewrite lookup_insert_ne by exact Hne. intros H.
      destruct (IH H) as (b & Hb & Hid & Hname).
      exists b. split; [apply in_or_app; left; exact Hb|auto].
Qed.

(** X23. The aroma map holds, for each ID of the slice, the name of the
    last aroma of the slice with that ID, and nothing for an ID that is
    not in the slice. *)
Theorem aromaMapFromSlice_last_wins (aromas : list Aroma) :
  (forall id, aromaMapFromSlice aromas !! id = None <->
              forall a, In a aromas -> aroma_ID a <> id) /\
  (forall pre a post,
     aromas = pre ++ a :: post ->
     (forall b, In b post -> aroma_ID b <> aroma_ID a) ->
     aromaMapFromSlice aromas !! aroma_ID a = Some (aroma_Name a)).
Proof.
  split.
  - intros id. induction aromas as [|a l IH] using rev_ind.
    + unfold aromaMapFromSlice. cbn [fold_left]. rewrite lookup_empty.
      split; [intros _ a []|reflexivity].
    + rewrite aromaMapFromSlice_snoc.
      destruct (decide (aroma_ID a = id)) as [Heq|Hne].
      * rewrite Heq, lookup_insert_eq. split; [discriminate|].
        intros Hall. exfalso. apply (Hall a); [|exact Heq].
        apply in_or_app. right. left. reflexivity.
      * rewrite lookup_insert_ne by exact Hne. rewrite IH. split.
        -- intros Hall b Hb. apply in_app_or in Hb as [Hb|[<-|[]]]; auto.
        -- intros Hall b Hb. apply Hall. apply in_or_app. left. exact Hb.
  - intros pre a post -> Hpost.
    induction post as [|b post IH] using rev_ind.
    + rewrite aromaMapFromSlice_snoc. apply lookup_insert_eq.
    + change (pre ++ a :: post ++ [b]) with (pre ++ (a :: post) ++ [b]).
      rewrite app_assoc, aromaMapFromSlice_snoc.
      rewrite lookup_insert_ne.
      * apply IH. intros c Hc. apply Hpost. apply in_or_app. left. exact Hc.
      * apply Hpost. apply in_or_app. right. left. reflexivity.
Qed.

Lemma aromaMapFromSlice_last_wins_witness :
  aromaMapFromSlice
    [ {| aroma_ID := 1; aroma_Name := "Cacao"; aroma_Family := "";
         aroma_PhotoURL := "" |};
      {| aroma_ID := 2; aroma_Name := "Vanille"; aroma_Family := "";
         aroma_PhotoURL := "" |};
      {| aroma_ID := 1; aroma_Name := "Cacao pur"; aroma_Family := "";
         aroma_PhotoURL := "" |} ] !! 1
  = Some "Cacao pur".
Proof.
  apply (proj2 (aromaMapFromSlice_last_wins _)
           [ {| aroma_ID := 1; aroma_Name := "Cacao"; aroma_Family := "";
                aroma_PhotoURL := "" |};
             {| aroma_ID := 2; aroma_Name := "Vanille"; aroma_Family := "";
                aroma_PhotoURL := "" |} ]
           {| aroma_ID := 1; aroma_Name := "Cacao pur"; aroma_Family := "";
              aroma_PhotoURL := "" |} []).
  - reflexivity.
  - intros b [].
Defined.

Section TastingFacts.
Variable float64 : Type.
Variable aromaMap : gmap Z string.

Local Abbreviation Tasting := (Tasting float64).
Local Abbreviation names := (t_AromaNames float64).
Local Abbreviation ids := (t_AromaIDs float64).
Local Abbreviation addName :=
  (fun (s : StringSlice) (id : Z) =>
     match aromaMap !! id with
     | Some name => append_string s name
     | None => s
     end).

(** The loop over the IDs only ever changes the names. *)
Lemma names_loop (l : list Z) (t : Tasting) :
  fold_left
    (fun t id =>
       match aromaMap !! id with
       | Some name => set_AromaNames float64 (append_string (names t) name) t
       | None => t
       end) l t
  = set_AromaNames float64 (fold_left addName l (names t)) t.
Proof.
  revert t. induction l as [|id l IH]; intros t.
  - destruct t. reflexivity.
  - cbn [fold_left]. rewrite IH.
    destruct (aromaMap !! id) as [name|]; [|reflexivity].
    destruct t. reflexivity.
Qed.

Lemma names_fold (l : list Z) (s : StringSlice) :
  strings_of (fold_left addName l s) =
  strings_of s ++ omap (fun id => aromaMap !! id) l.
Proof.
  revert s. induction l as [|id l IH]; intros s.
  - cbn. rewrite app_nil_r. reflexivity.
  - cbn [fold_left omap list_omap]. rewrite IH.
    destruct (aromaMap !! id) as [name|]; [|reflexivity].
    destruct s as [l0|]; cbn [append_string strings_of].
    + rewrite <- app_assoc. reflexivity.
    + reflexivity.
Qed.

Lemma In_omap_lookup (l : list Z) (name : string) :
  In name (omap (fun id => aromaMap !! id) l) ->
  exists id, In id l /\ aromaMap !! id = Some name.
Proof.
  induction l as [|id l IH]; [intros []|].
  cbn [omap list_omap]. destruct (aromaMap !! id) as [n|] eqn:Hid.
  - intros [<-|Hin].
    + exists id. split; [left; reflexivity|exact Hid].
    + destruct (IH Hin) as (id' & Hin' & Hl). exists id'. split; [right|]; assumption.
  - intros Hin. destruct (IH Hin) as (id' & Hin' & Hl).
    exists id'. split; [right|]; assumption.
Qed.
End TastingFacts.

(** X24. Scanning a row: when the scan fails its error is returned and
    no aroma is looked up; when it succeeds the tasting carries the IDs
    parsed from the array text, all above 0, and the names the aroma map
    has for them, in the order of the IDs, an ID without an aroma being
    skipped; latitude and longitude are set exactly when the column was
    not null.  With the map built from the aroma table, every name is
    the name of an aroma whose ID is one of the IDs. *)
Theorem scanTasting_aromas (float64 : Type) (row : Scanned float64)
    (aromas : list Aroma) :
  let m := aromaMapFromSlice aromas in
  let r := scanTasting float64 row m in
  (forall e, col_err float64 row = Some e ->
     r.2 = Some e /\ t_AromaIDs float64 r.1 = None /\
     t_AromaNames float64 r.1 = None) /\
  (col_err float64 row = None ->
     r.2 = None /\
     t_AromaIDs float64 r.1 = parsePgIntArray (col_aromaIDsRaw float64 row) /\
     Forall (fun id => 0 < id) (ints_of (t_AromaIDs float64 r.1)) /\
     strings_of (t_AromaNames float64 r.1) =
       omap (fun id => m !! id) (ints_of (t_AromaIDs float64 r.1)) /\
     (forall name, In name (strings_of (t_AromaNames float64 r.1)) ->
        exists a, In a aromas /\ aroma_Name a = name /\
                  In (aroma_ID a) (ints_of (t_AromaIDs float64 r.1))) /\
     t_Latitude float64 r.1 =
       (if nf_Valid float64 (col_lat float64 row)
        then Some (nf_Float64 float64 (col_lat float64 row)) else None) /\
     t_Longitude float64 r.1 =
       (if nf_Valid float64 (col_lng float64 row)
        then Some (nf_Float64 float64 (col_lng float64 row)) else None)).
Proof.
  intros m r. unfold r, scanTasting. split.
  - intros e ->. repeat split.
  - intros ->. cbv zeta. rewrite names_loop.
    set (raw := parsePgIntArray (col_aromaIDsRaw float64 row)).
    assert (Hpos : Forall (fun id => 0 < id) (ints_of raw)).
    { unfold raw. destruct (parsePgIntArray _) as [ns|] eqn:Hp; [|constructor].
      pose proof (parsePgIntArray_pos _ _ Hp) as Hall. cbn [ints_of].
      eapply Forall_impl; [exact Hall|]. cbn. intros; lia. }
    destruct (nf_Valid float64 (col_lat float64 row)),
             (nf_Valid float64 (col_lng float64 row));
      cbn [fst snd set_AromaNames set_AromaIDs set_Latitude set_Longitude
           t_AromaIDs t_AromaNames t_Latitude t_Longitude];
      (split; [reflexivity|]); (split; [reflexivity|]);
      (split; [exact Hpos|]);
      (split; [apply names_fold|]);
      (split; [|split; reflexivity]);
      intros name Hin; rewrite names_fold in Hin; cbn [strings_of app] in Hin;
      apply In_omap_lookup in Hin as (id & Hid & Hl);
      apply aromaMapFromSlice_Some in Hl as (a & Ha & Haid & Hname);
      exists a; subst id; auto.
Qed.

Lemma scanTasting_aromas_witness :
  let aromas := [ {| aroma_ID := 1; aroma_Name := "Cacao"; aroma_Family := "";
                     aroma_PhotoURL := "" |};
                  {| aroma_ID := 5; aroma_Name := "Vanille"; aroma_Family := "";
                     aroma_PhotoURL := "" |} ] in
  let row := mkScanned Z "t1" "Noir 70" "" "" 4 "quick" "" "" (mkNullFloat64 Z 0 false)
               (mkNullFloat64 Z 2 true) 1000 "{5,3,1}" "" "" "" "" None in
  strings_of (t_AromaNames Z (scanTasting Z row (aromaMapFromSlice aromas)).1)
  = omap (fun id => aromaMapFromSlice aromas !! id)
      (ints_of (t_AromaIDs Z (scanTasting Z row (aromaMapFromSlice aromas)).1)).
Proof.
  intros aromas row.
  exact (proj1 (proj2 (proj2 (proj2 (proj2 (scanTasting_aromas Z row aromas)
                                               eq_refl))))).
Defined.

(** * Properties of the notes *)

Lemma Join_empty (parts : list string) (sep : string) :
  Forall (fun p => p <> "") parts ->
  (strings_Join parts sep = "" <-> parts = []).
Proof.
  intros Hall. destruct parts as [|p rest]; [split; reflexivity|].
  inversion Hall as [|? ? Hp _]; subst. split; [|discriminate].
  destruct rest as [|p2 rest'].
  - cbn [strings_Join]. intros H. contradiction.
  - change (strings_Join (p :: p2 :: rest') sep)
      with (p +:+ sep +:+ strings_Join (p2 :: rest') sep).
    destruct p as [|c p]; [contradiction|]. discriminate.
Qed.

(** One optional line of the notes. *)
Lemma optional_part (parts : list string) (label v : string) :
  (if negb (String.eqb v "") then parts ++ [label +:+ v] else parts) =
  parts ++ (if String.eqb v "" then [] else [label +:+ v]).
Proof.
  destruct (String.eqb v ""); cbn [negb]; [rewrite app_nil_r|]; reflexivity.
Qed.

(** X25. The notes of a form: outside the deep mode they are the notes
    field, trimmed, whatever the other fields hold; in the deep mode
    they are empty exactly when all seven fields are blank. *)
Theorem buildNotes_modes (form : string -> string) :
  let field := fun k => strings_TrimSpace (form k) in
  (field "mode" <> "deep" -> buildNotes form = field "notes") /\
  (field "mode" = "deep" ->
   (buildNotes form = "" <->
    field "vue_quality" = "" /\ field "snap_quality" = "" /\
    field "notes_cassant" = "" /\ field "melt_quality" = "" /\
    field "finish_length" = "" /\ field "notes_finale" = "" /\
    field "notes" = "")).
Proof.
  intros field. unfold buildNotes. cbv zeta. split.
  - intros Hmode. apply String.eqb_neq in Hmode. fold (field "mode").
    rewrite Hmode. reflexivity.
  - intros Hmode. fold (field "mode"). rewrite Hmode, String.eqb_refl.
    cbn [negb].
    change (strings_TrimSpace (form "vue_quality")) with (field "vue_quality").
    change (strings_TrimSpace (form "snap_quality")) with (field "snap_quality").
    change (strings_TrimSpace (form "notes_cassant")) with (field "notes_cassant").
    change (strings_TrimSpace (form "melt_quality")) with (field "melt_quality").
    change (strings_TrimSpace (form "finish_length")) with (field "finish_length").
    change (strings_TrimSpace (form "notes_finale")) with (field "notes_finale").
    change (strings_TrimSpace (form "notes")) with (field "notes").
    generalize (field "vue_quality") (field "snap_quality") (field "notes_cassant")
      (field "melt_quality") (field "finish_length") (field "notes_finale")
      (field "notes").
    intros v1 v2 v3 v4 v5 v6 v7.
    rewrite (optional_part _ "Vue : "), (optional_part _ "Cassant : "),
      (optional_part _ "" v3), (optional_part _ "Texture : "),
      (optional_part _ "Finale : "), (optional_part _ "" v6),
      (optional_part _ "" v7).
    match goal with
    | |- strings_Join ?p _ = _ <-> _ => set (parts := p)
    end.
    assert (HF : Forall (fun p => p <> "") parts).
    { unfold parts. rewrite !Forall_app.
      destruct (String.eqb_spec v1 ""), (String.eqb_spec v2 ""),
        (String.eqb_spec v3 ""), (String.eqb_spec v4 ""),
        (String.eqb_spec v5 ""), (String.eqb_spec v6 ""),
        (String.eqb_spec v7 "");
        repeat split; repeat constructor; try discriminate; assumption. }
    etransitivity; [exact (Join_empty parts lineFeed HF)|].
    unfold parts.
    destruct (String.eqb_spec v1 ""), (String.eqb_spec v2 ""),
      (String.eqb_spec v3 ""), (String.eqb_spec v4 ""),
      (String.eqb_spec v5 ""), (String.eqb_spec v6 ""),
      (String.eqb_spec v7 ""); cbn [app];
      (split; [intros H; first [discriminate H | tauto] | tauto]).
Qed.

Lemma buildNotes_modes_witness :
  buildNotes (fun k => if String.eqb k "notes" then "  tres bon " else
                       if String.eqb k "vue_quality" then "brillant" else "")
  = strings_TrimSpace "  tres bon ".
Proof.
  apply (proj1 (buildNotes_modes
                  (fun k => if String.eqb k "notes" then "  tres bon " else
                            if String.eqb k "vue_quality" then "brillant"
                            else ""))).
  vm_compute. discriminate.
Defined.
